(** * Notes API: a shallow embedding of [notes_backend/src/api/notes.py]

    The five handlers of the notes router ([list_notes], [create_note],
    [get_note], [update_note], [delete_note]) are embedded as computations
    in a small exception-and-state monad over one SQLite connection.  The
    [notes] table is a finite map from rowid to row; the clock reading
    [datetime.utcnow()] and the engine's random rowid candidates are explicit
    inputs of the handlers that use them. *)

From Stdlib Require Import ZArith String Ascii List.
From stdpp Require Import base option list gmap strings sorting.

Local Open Scope Z_scope.

(** ** Python values *)

(** A Python [str]: one character per code point. *)
Definition len (s : string) : Z := Z.of_nat (String.length s).

(** Exceptions that the handlers raise or that pass through them.
    [HTTPException] is FastAPI's; [sqlite3_Error] is the base class of the
    driver's errors; [OverflowError] is what the driver raises when a Python
    [int] bound to a [?] placeholder does not fit a 64-bit SQLite INTEGER;
    [ValidationError] is pydantic's, raised when a model is constructed from
    values that break its [Field] constraints; [TypeError] is raised by
    subscripting [None]. *)
Inductive exn : Type :=
| HTTPException (status_code : Z) (detail : string)
| sqlite3_Error (msg : string)
| OverflowError
| ValidationError
| TypeError.

(** ** Pydantic models *)

(** [NoteBase]: [title] has [min_length=1, max_length=200], [content] has
    [min_length=1, max_length=20000]. *)
Definition title_ok (s : string) : bool := (1 <=? len s) && (len s <=? 200).
Definition content_ok (s : string) : bool := (1 <=? len s) && (len s <=? 20000).

Record NoteCreate : Type := { nc_title : string; nc_content : string }.

Definition NoteCreate_valid (p : NoteCreate) : bool :=
  title_ok (nc_title p) && content_ok (nc_content p).

(** [NoteUpdate]: both fields are [Optional] with default [None]; the length
    bounds apply to a field that is present. *)
Record NoteUpdate : Type := { nu_title : option string; nu_content : option string }.

Definition optional_ok (ok : string → bool) (o : option string) : bool :=
  match o with None => true | Some s => ok s end.

Definition NoteUpdate_valid (p : NoteUpdate) : bool :=
  optional_ok title_ok (nu_title p) && optional_ok content_ok (nu_content p).

Record NoteOut : Type := {
  id : Z;
  title : string;
  content : string;
  created_at : string;
  updated_at : string
}.

(** ** The [notes] table *)

(** One row of [notes] without its rowid, which is the key of the map. *)
Record Row : Type := {
  r_title : string;
  r_content : string;
  r_created_at : string;
  r_updated_at : string
}.

(** SQL statements the handlers send, with their bound parameters. *)
Inductive statement : Type :=
| SELECT_all
| SELECT_by_id (note_id : Z)
| INSERT (title content created_at updated_at : string)
| UPDATE (title content updated_at : string) (note_id : Z)
| DELETE (note_id : Z).

(** A connection: the table contents it sees and the statements executed so
    far (most recent last). *)
Record connection : Type := {
  notes : gmap Z Row;
  executed : list statement
}.

(** ** The monad of handler bodies *)

Definition M (A : Type) : Type := connection → (exn + A) * connection.

#[global] Instance M_ret : MRet M := λ A a c, (inr a, c).
#[global] Instance M_bind : MBind M := λ A B k m c,
  match m c with
  | (inr a, c') => k a c'
  | (inl e, c') => (inl e, c')
  end.

Definition raise {A} (e : exn) : M A := λ c, (inl e, c).

(** [try: ... except sqlite3.Error as e: raise HTTPException(500, ...)].
    An [HTTPException] is re-raised as it is, and any other exception is not
    caught by either clause. *)
Definition except_sqlite3_Error {A} (m : M A) : M A :=
  λ c, match m c with
       | (inl (sqlite3_Error msg), c') =>
           (inl (HTTPException 500 ("Database error: " +:+ msg)), c')
       | r => r
       end.

(** [with get_connection() as conn:] commits when the block ends normally
    and rolls back when an exception leaves it. *)
Definition with_connection {A} (m : M A) : M A :=
  λ c, match m c with
       | (inr a, c') => (inr a, c')
       | (inl e, c') => (inl e, {| notes := notes c; executed := executed c' |})
       end.

(** ** Timestamps *)

(** A naive [datetime] as [datetime.utcnow()] returns it. *)
Record datetime : Type := {
  year : Z; month : Z; day : Z;
  hour : Z; minute : Z; second : Z; microsecond : Z
}.

Definition digit (d : Z) : ascii := ascii_of_nat (48 + Z.to_nat d).

(** [%0wd] for [0 <= n < 10^w]: the [w] low decimal digits of [n], most
    significant first. *)
Fixpoint zero_pad (w : nat) (n : Z) : string :=
  match w with
  | O => ""
  | S w' => String (digit ((n / 10 ^ Z.of_nat w') mod 10)) (zero_pad w' n)
  end.

(** [datetime.isoformat()]: [YYYY-MM-DDTHH:MM:SS], followed by [.ffffff]
    when [microsecond] is not zero. *)
Definition isoformat (d : datetime) : string :=
  zero_pad 4 (year d) +:+ "-" +:+ zero_pad 2 (month d) +:+ "-" +:+
  zero_pad 2 (day d) +:+ "T" +:+ zero_pad 2 (hour d) +:+ ":" +:+
  zero_pad 2 (minute d) +:+ ":" +:+ zero_pad 2 (second d) +:+
  (if microsecond d =? 0 then "" else "." +:+ zero_pad 6 (microsecond d)).

(** ** The SQLite engine *)

(** *** The SQL function [datetime()] *)

Definition is_digit (a : ascii) : bool :=
  (48 <=? Z.of_nat (nat_of_ascii a)) && (Z.of_nat (nat_of_ascii a) <=? 57).

(** Reads exactly [n] decimal digits. *)
Fixpoint get_digits (n : nat) (acc : Z) (s : string) : option (Z * string) :=
  match n with
  | O => Some (acc, s)
  | S n' =>
      match s with
      | String a s' =>
          if is_digit a
          then get_digits n' (10 * acc + (Z.of_nat (nat_of_ascii a) - 48)) s'
          else None
      | EmptyString => None
      end
  end.

(** [n] digits whose value lies in [lo, hi]. *)
Definition field (n : nat) (lo hi : Z) (s : string) : option (Z * string) :=
  '(v, s') ← get_digits n 0 s;
  if (lo <=? v) && (v <=? hi) then Some (v, s') else None.

Definition expect (a : ascii) (s : string) : option string :=
  match s with
  | String b s' => if Ascii.eqb a b then Some s' else None
  | EmptyString => None
  end.

Fixpoint all_digits (s : string) : bool :=
  match s with
  | EmptyString => true
  | String a s' => is_digit a && all_digits s'
  end.

(** The fractional part of the seconds: nothing, or a point and one or more
    digits.  It does not reach the result. *)
Definition fraction_ok (s : string) : bool :=
  match s with
  | EmptyString => true
  | String "." (String a s') => is_digit a && all_digits s'
  | _ => false
  end.

(** [datetime(X)] for a time value [X] written [YYYY-MM-DDTHH:MM:SS] or
    [YYYY-MM-DDTHH:MM:SS.f...], the two forms that [isoformat] writes: the
    fields are range-checked the way the engine's date parser does (it
    lets the hour reach 24) and the result is [YYYY-MM-DD HH:MM:SS], the
    fraction of the second dropped.
    This is the engine's function on those two forms only.  The engine
    accepts more spellings of a time value: a blank in place of the [T], a
    date alone, [HH:MM] without seconds, a trailing [Z] or [+hh:mm] offset,
    blanks at the end, a Julian day number, ['now'].  None of them is
    written by [create_note] or [update_note], and on them this function
    answers [None] where the engine answers a text.  [None] is SQL NULL,
    which the engine gives for a text that is not a time value.  Every
    property below that depends on the order of the list is therefore
    stated for rows whose [updated_at] is an [isoformat] text, never for an
    arbitrary column value. *)
Definition sqlite_datetime (x : string) : option string :=
  '(Y, s) ← field 4 0 9999 x; s ← expect "-" s;
  '(Mo, s) ← field 2 1 12 s; s ← expect "-" s;
  '(D, s) ← field 2 1 31 s; s ← expect "T" s;
  '(h, s) ← field 2 0 24 s; s ← expect ":" s;
  '(mi, s) ← field 2 0 59 s; s ← expect ":" s;
  '(sec, s) ← field 2 0 59 s;
  if fraction_ok s
  then Some (zero_pad 4 Y +:+ "-" +:+ zero_pad 2 Mo +:+ "-" +:+ zero_pad 2 D
             +:+ " " +:+ zero_pad 2 h +:+ ":" +:+ zero_pad 2 mi +:+ ":" +:+
             zero_pad 2 sec)
  else None.

(** *** [ORDER BY datetime(updated_at) DESC, id DESC] *)

(** Ascending order of the first sort key: NULL sorts before every text,
    texts compare byte by byte. *)
Definition key_le (k1 k2 : option string) : Prop :=
  match k1, k2 with
  | None, _ => True
  | Some _, None => False
  | Some s1, Some s2 => (s1 ≤ s2)%string
  end.

#[global] Instance key_le_dec : RelDecision key_le.
Proof. intros [s1|] [s2|]; simpl; apply _. Defined.

Definition sort_key (r : Z * Row) : option string :=
  sqlite_datetime (r_updated_at r.2).

(** [r1] is delivered no later than [r2]: its first key is strictly greater,
    or the first keys are equal and its id is not smaller. *)
Definition order_by (r1 r2 : Z * Row) : Prop :=
  ¬ key_le (sort_key r1) (sort_key r2) ∨
  (sort_key r1 = sort_key r2 ∧ r2.1 ≤ r1.1).

#[global] Instance order_by_dec : RelDecision order_by.
Proof. intros r1 r2. unfold order_by. apply _. Defined.

(** *** Rowid allocation *)

Definition MAX_ROWID : Z := 9223372036854775807.

(** The range of a SQLite INTEGER. *)
Definition int64 (n : Z) : bool := (- MAX_ROWID - 1 <=? n) && (n <=? MAX_ROWID).

Definition largest_rowid (t : gmap Z Row) : option Z :=
  foldr (λ k acc, Some (from_option (Z.max k) k acc)) None (map_to_list t).*1.

(** Modelled from the spec: the table is declared with
    [id INTEGER PRIMARY KEY] by a schema script that is not part of this
    source tree, so [id] is an alias of the rowid and an INSERT that gives
    no id lets the engine choose one.  This is the engine's choice when the
    column is declared as the spec writes it, without AUTOINCREMENT: 1 in
    an empty table, otherwise one more than the largest rowid in use; when
    that largest rowid is [MAX_ROWID] the engine draws up to 100 random
    positive candidates and takes the first unused one, and the INSERT fails
    with SQLITE_FULL when all are in use.
    [rnd i] is the [i]-th 64-bit value the engine's random source yields.
    The choice for a column declared AUTOINCREMENT is [autoincrement_rowid]
    below; the handlers are the same over either. *)
Definition new_rowid (rnd : nat → Z) (t : gmap Z Row) : option Z :=
  match largest_rowid t with
  | None => Some 1
  | Some v =>
      if v <? MAX_ROWID then Some (v + 1)
      else
        find (λ c, bool_decide (t !! c = None))
             ((λ i, Z.land (rnd i) (Z.shiftr MAX_ROWID 1) + 1) <$> seq 0 100)
  end.

(** *** Statements *)

(** [conn.execute(sql, params)]: the statement is recorded and its effect
    [run] applied to the table. *)
Definition execute {A} (s : statement)
    (run : gmap Z Row → (exn + A) * gmap Z Row) : M A :=
  λ c, let '(r, t) := run (notes c) in
       (r, {| notes := t; executed := executed c ++ [s] |}).

(** Binding a Python [int] to a [?] placeholder: the driver raises
    [OverflowError] before the statement runs when the value does not fit. *)
Definition bind_int (n : Z) : M () :=
  if int64 n then mret () else raise OverflowError.

(** [SELECT id, title, content, created_at, updated_at FROM notes
     ORDER BY datetime(updated_at) DESC, id DESC], then [fetchall()]. *)
Definition select_all : M (list (Z * Row)) :=
  execute SELECT_all (λ t, (inr (merge_sort order_by (map_to_list t)), t)).

(** [SELECT ... FROM notes WHERE id = ?], then [fetchone()]. *)
Definition select_by_id (note_id : Z) : M (option (Z * Row)) :=
  bind_int note_id;;
  execute (SELECT_by_id note_id) (λ t, (inr (pair note_id <$> t !! note_id), t)).

(** [INSERT INTO notes (title, content, created_at, updated_at)
     VALUES (?, ?, ?, ?)]; the result is [cur.lastrowid]. *)
Definition insert (rnd : nat → Z) (title content created_at updated_at : string)
  : M Z :=
  execute (INSERT title content created_at updated_at) (λ t,
    match new_rowid rnd t with
    | Some k =>
        (inr k, <[k := {| r_title := title; r_content := content;
                          r_created_at := created_at;
                          r_updated_at := updated_at |}]> t)
    | None => (inl (sqlite3_Error "database or disk is full"), t)
    end).

(** [UPDATE notes SET title = ?, content = ?, updated_at = ? WHERE id = ?]. *)
Definition update (title content updated_at : string) (note_id : Z) : M () :=
  bind_int note_id;;
  execute (UPDATE title content updated_at note_id) (λ t,
    (inr (), alter (λ r, {| r_title := title; r_content := content;
                            r_created_at := r_created_at r;
                            r_updated_at := updated_at |}) note_id t)).

(** [DELETE FROM notes WHERE id = ?]; the result is [cur.rowcount]. *)
Definition delete_by_id (note_id : Z) : M Z :=
  bind_int note_id;;
  execute (DELETE note_id) (λ t,
    (inr (if t !! note_id is Some _ then 1 else 0), delete note_id t)).

(** ** The handlers *)

(** [NoteOut(id=..., title=..., ...)]: [NoteOut] inherits the length bounds
    of [NoteBase], so building it from a row that breaks them raises
    [ValidationError]; subscripting the [None] that [fetchone()] returns for
    an empty result raises [TypeError]. *)
Definition _row_to_note (row : option (Z * Row)) : M NoteOut :=
  match row with
  | None => raise TypeError
  | Some (k, r) =>
      if title_ok (r_title r) && content_ok (r_content r)
      then mret {| id := k; title := r_title r; content := r_content r;
                   created_at := r_created_at r; updated_at := r_updated_at r |}
      else raise ValidationError
  end.

Definition list_notes : M (list NoteOut) :=
  except_sqlite3_Error (with_connection (
    rows ← select_all;
    mapM (λ r, _row_to_note (Some r)) rows)).

Definition create_note (utcnow : datetime) (rnd : nat → Z) (payload : NoteCreate)
  : M NoteOut :=
  let now := isoformat utcnow in
  except_sqlite3_Error (with_connection (
    note_id ← insert rnd (nc_title payload) (nc_content payload) now now;
    row ← select_by_id note_id;
    _row_to_note row)).

Definition get_note (note_id : Z) : M NoteOut :=
  except_sqlite3_Error (with_connection (
    row ← select_by_id note_id;
    match row with
    | None => raise (HTTPException 404 "Note not found")
    | Some _ => _row_to_note row
    end)).

Definition update_note (utcnow : datetime) (note_id : Z) (payload : NoteUpdate)
  : M NoteOut :=
  match nu_title payload, nu_content payload with
  | None, None =>
      raise (HTTPException 422
               "At least one of 'title' or 'content' must be provided")
  | _, _ =>
      let now := isoformat utcnow in
      except_sqlite3_Error (with_connection (
        existing ← select_by_id note_id;
        match existing with
        | None => raise (HTTPException 404 "Note not found")
        | Some (_, e) =>
            let new_title := default (r_title e) (nu_title payload) in
            let new_content := default (r_content e) (nu_content payload) in
            update new_title new_content now note_id;;
            row ← select_by_id note_id;
            _row_to_note row
        end))
  end.

(** [Response(status_code=204)]: a response without a body. *)
Record Response : Type := { status_code : Z; body : string }.

Definition delete_note (note_id : Z) : M Response :=
  except_sqlite3_Error (
    with_connection (
      rowcount ← delete_by_id note_id;
      if rowcount =? 0 then raise (HTTPException 404 "Note not found")
      else mret ());;
    mret {| status_code := 204; body := "" |}).

(** ** The routes *)

(** The status FastAPI answers with: the route's own status code for a
    returned value, the code an [HTTPException] carries, and 500 for an
    exception that no handler catches. *)
Definition http_status {A} (success : Z) (r : exn + A) : Z :=
  match r with
  | inr _ => success
  | inl (HTTPException code _) => code
  | inl _ => 500
  end.

(** [POST /notes]: the body is validated against [NoteCreate] before the
    handler is called; a body that breaks the bounds is answered 422. *)
Definition POST_notes (utcnow : datetime) (rnd : nat → Z) (body : NoteCreate)
  : M NoteOut :=
  if NoteCreate_valid body then create_note utcnow rnd body
  else raise (HTTPException 422 "Unprocessable Entity").

(** [PUT /notes/{note_id}]: the body is validated against [NoteUpdate]
    before the handler is called; a body that breaks the bounds is answered
    422. *)
Definition PUT_notes (utcnow : datetime) (note_id : Z) (body : NoteUpdate)
  : M NoteOut :=
  if NoteUpdate_valid body then update_note utcnow note_id body
  else raise (HTTPException 422 "Unprocessable Entity").

(** ** Sequences of requests *)

Inductive request : Type :=
| ListNotes
| CreateNote (utcnow : datetime) (rnd : nat → Z) (body : NoteCreate)
| GetNote (note_id : Z)
| UpdateNote (utcnow : datetime) (note_id : Z) (body : NoteUpdate)
| DeleteNote (note_id : Z).

Inductive reply : Type :=
| Listed (r : exn + list NoteOut)
| Created (r : exn + NoteOut)
| Fetched (r : exn + NoteOut)
| Updated (r : exn + NoteOut)
| Deleted (r : exn + Response).

(** One request, served on its own connection to the same database file:
    what the next request sees is what this one left committed. *)
Definition serve (rq : request) (c : connection) : reply * connection :=
  match rq with
  | ListNotes => let '(r, c') := list_notes c in (Listed r, c')
  | CreateNote utcnow rnd body =>
      let '(r, c') := POST_notes utcnow rnd body c in (Created r, c')
  | GetNote note_id => let '(r, c') := get_note note_id c in (Fetched r, c')
  | UpdateNote utcnow note_id body =>
      let '(r, c') := PUT_notes utcnow note_id body c in (Updated r, c')
  | DeleteNote note_id =>
      let '(r, c') := delete_note note_id c in (Deleted r, c')
  end.

Fixpoint serve_all (rqs : list request) (c : connection)
  : list reply * connection :=
  match rqs with
  | [] => ([], c)
  | rq :: rqs' =>
      let '(r, c') := serve rq c in
      let '(rs, c'') := serve_all rqs' c' in
      (r :: rs, c'')
  end.

(** The database before any request: the table exists and is empty. *)
Definition fresh : connection := {| notes := ∅; executed := [] |}.

(** ** The table declared with AUTOINCREMENT *)

(** Modelled from the spec: the schema script that creates the table is not
    part of this source tree.  The spec's data model says that the id is
    "assigned by the storage layer on creation (auto-increment)" and that it
    "is never reused", which is a column declared
    [id INTEGER PRIMARY KEY AUTOINCREMENT]: the engine keeps, in its
    [sqlite_sequence] table, the largest rowid it has ever assigned for
    [notes], and an INSERT that gives no id gets one more than that value,
    or one more than the largest rowid in use if that is larger; once
    [MAX_ROWID] has been reached the INSERT fails with SQLITE_FULL, and no
    random candidate is tried. *)
Definition autoincrement_rowid (seq : Z) (t : gmap Z Row) : option Z :=
  if (seq <? MAX_ROWID) &&
     from_option (λ v, v <? MAX_ROWID) true (largest_rowid t)
  then Some (Z.max (seq + 1) (from_option (λ v, v + 1) 1 (largest_rowid t)))
  else None.

(** The INSERT of [create_note], the rowid of the new row being what
    [choose] answers for the table. *)
Definition insert_with (choose : gmap Z Row → option Z)
    (title content created_at updated_at : string) : M Z :=
  execute (INSERT title content created_at updated_at) (λ t,
    match choose t with
    | Some k =>
        (inr k, <[k := {| r_title := title; r_content := content;
                          r_created_at := created_at;
                          r_updated_at := updated_at |}]> t)
    | None => (inl (sqlite3_Error "database or disk is full"), t)
    end).

(** The body of [create_note], over [insert_with]. *)
Definition create_note_with (choose : gmap Z Row → option Z)
    (utcnow : datetime) (payload : NoteCreate) : M NoteOut :=
  let now := isoformat utcnow in
  except_sqlite3_Error (with_connection (
    note_id ← insert_with choose (nc_title payload) (nc_content payload) now now;
    row ← select_by_id note_id;
    _row_to_note row)).

Definition POST_notes_with (choose : gmap Z Row → option Z)
    (utcnow : datetime) (body : NoteCreate) : M NoteOut :=
  if NoteCreate_valid body then create_note_with choose utcnow body
  else raise (HTTPException 422 "Unprocessable Entity").

(** The database file: the connection's view of [notes] and the entry of
    [sqlite_sequence] for it. *)
Record database : Type := {
  connection_of : connection;
  sqlite_sequence : Z
}.

(** One request on the AUTOINCREMENT table.  A create that returns has
    stored its rowid in [sqlite_sequence] in the same transaction; the
    other requests do not touch it. *)
Definition serve_sequenced (rq : request) (db : database) : reply * database :=
  match rq with
  | CreateNote utcnow _ body =>
      let '(r, c') :=
        POST_notes_with (autoincrement_rowid (sqlite_sequence db)) utcnow body
          (connection_of db) in
      (Created r,
       {| connection_of := c';
          sqlite_sequence := match r with
                             | inr n => id n
                             | inl _ => sqlite_sequence db
                             end |})
  | _ =>
      let '(rp, c') := serve rq (connection_of db) in
      (rp, {| connection_of := c'; sqlite_sequence := sqlite_sequence db |})
  end.

Fixpoint serve_all_sequenced (rqs : list request) (db : database)
  : list reply * database :=
  match rqs with
  | [] => ([], db)
  | rq :: rqs' =>
      let '(r, db') := serve_sequenced rq db in
      let '(rs, db'') := serve_all_sequenced rqs' db' in
      (r :: rs, db'')
  end.

(** The database before any request: the table is empty and no rowid has
    been assigned. *)
Definition fresh_database : database :=
  {| connection_of := fresh; sqlite_sequence := 0 |}.

(** * The connection file: [notes_backend/src/api/db.py] *)

(** ** Python [str] methods, on characters below 256 *)

Definition code (a : ascii) : Z := Z.of_nat (nat_of_ascii a).

(** [str.isspace()] of one character: TAB to CR, FS to US, the space, NEL
    and the no-break space. *)
Definition isspace (a : ascii) : bool :=
  ((9 <=? code a) && (code a <=? 13)) || ((28 <=? code a) && (code a <=? 32))
  || (code a =? 133) || (code a =? 160).

(** The line boundaries of [str.splitlines()]: LF, VT, FF, CR, FS, GS, RS
    and NEL. *)
Definition is_linebreak (a : ascii) : bool :=
  ((10 <=? code a) && (code a <=? 13)) || ((28 <=? code a) && (code a <=? 30))
  || (code a =? 133).

Fixpoint lstrip (s : string) : string :=
  match s with
  | String c s' => if isspace c then lstrip s' else s
  | EmptyString => EmptyString
  end.

Fixpoint rstrip (s : string) : string :=
  match s with
  | String c s' =>
      match rstrip s' with
      | EmptyString => if isspace c then EmptyString else String c EmptyString
      | t => String c t
      end
  | EmptyString => EmptyString
  end.

(** [s.strip()] *)
Definition strip (s : string) : string := rstrip (lstrip s).

(** [str.lower()] of one character: the letters A to Z and the capital
    letters of Latin-1 move up by 32. *)
Definition lower_char (a : ascii) : ascii :=
  if ((65 <=? code a) && (code a <=? 90))
     || ((192 <=? code a) && (code a <=? 222) && negb (code a =? 215))
  then ascii_of_nat (nat_of_ascii a + 32) else a.

Fixpoint lower (s : string) : string :=
  match s with
  | String c s' => String (lower_char c) (lower s')
  | EmptyString => EmptyString
  end.

(** [s.startswith(prefix)] *)
Fixpoint startswith (s prefix : string) {struct prefix} : bool :=
  match prefix, s with
  | EmptyString, _ => true
  | String a p, String b s' => Ascii.eqb a b && startswith s' p
  | String _ _, EmptyString => false
  end.

(** [s.partition(sep)] when [sep] occurs: the text before its first
    occurrence and the text after it. *)
Fixpoint partition (sep : ascii) (s : string) : option (string * string) :=
  match s with
  | String c s' =>
      if Ascii.eqb c sep then Some (EmptyString, s')
      else '(a, b) ← partition sep s'; Some (String c a, b)
  | EmptyString => None
  end.

(** [s.split(sep, 1)] *)
Definition split1 (sep : ascii) (s : string) : list string :=
  match partition sep s with
  | Some (a, b) => [a; b]
  | None => [s]
  end.

(** [s[n:]] *)
Fixpoint skip (n : nat) (s : string) : string :=
  match n, s with
  | S n', String _ s' => skip n' s'
  | _, _ => s
  end.

(** [s.replace(old, new, 1)] *)
Fixpoint replace_first (old new s : string) : string :=
  if startswith s old then new +:+ skip (String.length old) s
  else match s with
       | String c s' => String c (replace_first old new s')
       | EmptyString => EmptyString
       end.

(** [s.splitlines()]: the lines without their boundaries; CR LF is one
    boundary, and a boundary at the very end opens no further line. *)
Fixpoint splitlines (s : string) : list string :=
  match s with
  | EmptyString => []
  | String c s' =>
      if is_linebreak c then
        EmptyString ::
          match s' with
          | String d s'' =>
              if Ascii.eqb c "013" && Ascii.eqb d "010" then splitlines s''
              else splitlines s'
          | EmptyString => []
          end
      else
        match splitlines s' with
        | l :: ls => String c l :: ls
        | [] => [String c ""]
        end
  end.

(** ** [_extract_sqlite_file_path] *)

(** The outcome of a function that may raise [IndexError]. *)
Inductive raising (A : Type) : Type :=
| Returns (a : A)
| Raises_IndexError.
Arguments Returns {A} a.
Arguments Raises_IndexError {A}.

(** [l[1]] *)
Definition item1 (l : list string) : raising string :=
  match l !! 1%nat with
  | Some v => Returns v
  | None => Raises_IndexError
  end.

(** The [for] loop over the lines; [scan rest] is the next iteration. *)
Fixpoint scan (lines : list string) : raising (option string) :=
  match lines with
  | [] => Returns None
  | raw_line :: rest =>
      let line := strip raw_line in
      if String.eqb line "" || startswith line "#" then scan rest
      else
        let connection_string :=
          if startswith (lower line) "connection string:" then
            match item1 (split1 ":" line) with
            | Returns v =>
                let value := strip v in
                if startswith value "sqlite:////"
                then Returns (Some (replace_first "sqlite:////" "/" value))
                else scan rest
            | Raises_IndexError => Raises_IndexError
            end
          else scan rest in
        if startswith (lower line) "file path:" then
          match item1 (split1 ":" line) with
          | Returns v =>
              let value := strip v in
              if negb (String.eqb value "") then Returns (Some value)
              else connection_string
          | Raises_IndexError => Raises_IndexError
          end
        else connection_string
  end.

Definition _extract_sqlite_file_path (db_connection_txt : string)
  : raising (option string) :=
  scan (splitlines db_connection_txt).

(** * Vocabulary of the properties *)

(** ** Well-formed tables *)

(** What the schema and the handlers guarantee of every stored row: the
    rowid is a 64-bit integer, and title and content are within the bounds
    of [NoteBase] (the handlers write validated payload fields only). *)
Definition text_ok (r : Row) : Prop :=
  title_ok (r_title r) = true ∧ content_ok (r_content r) = true.

Definition row_ok (k : Z) (r : Row) : Prop := int64 k = true ∧ text_ok r.

Definition wf_table (t : gmap Z Row) : Prop := map_Forall row_ok t.

Definition note_of (k : Z) (r : Row) : NoteOut :=
  {| id := k; title := r_title r; content := r_content r;
     created_at := r_created_at r; updated_at := r_updated_at r |}.

(** The connection after one more statement. *)
Definition after (s : statement) (t : gmap Z Row) (c : connection) : connection :=
  {| notes := t; executed := executed c ++ [s] |}.

(** The row that [update_note] writes over [r]. *)
Definition merged (now : string) (payload : NoteUpdate) (r : Row) : Row :=
  {| r_title := default (r_title r) (nu_title payload);
     r_content := default (r_content r) (nu_content payload);
     r_created_at := r_created_at r;
     r_updated_at := now |}.

Definition supplied (payload : NoteUpdate) : Prop :=
  is_Some (nu_title payload) ∨ is_Some (nu_content payload).

(** The row that [create_note] inserts. *)
Definition inserted (now : string) (payload : NoteCreate) : Row :=
  {| r_title := nc_title payload; r_content := nc_content payload;
     r_created_at := now; r_updated_at := now |}.

(** The three statements of a successful update. *)
Definition updating (now : string) (k : Z) (r' : Row) : list statement :=
  [SELECT_by_id k; UPDATE (r_title r') (r_content r') now k; SELECT_by_id k].

(** ** Clock readings *)

(** The field ranges of a [datetime]. *)
Definition valid_datetime (d : datetime) : Prop :=
  1 ≤ year d ≤ 9999 ∧ 1 ≤ month d ≤ 12 ∧ 1 ≤ day d ≤ 31 ∧
  0 ≤ hour d ≤ 23 ∧ 0 ≤ minute d ≤ 59 ∧ 0 ≤ second d ≤ 59 ∧
  0 ≤ microsecond d ≤ 999999.

Definition lex (c1 c2 : comparison) : comparison :=
  match c1 with Eq => c2 | _ => c1 end.

(** Python compares two naive datetimes field by field, year first. *)
Definition datetime_compare (d1 d2 : datetime) : comparison :=
  lex (year d1 ?= year d2) (lex (month d1 ?= month d2)
  (lex (day d1 ?= day d2) (lex (hour d1 ?= hour d2)
  (lex (minute d1 ?= minute d2) (lex (second d1 ?= second d2)
  (microsecond d1 ?= microsecond d2)))))).

Definition datetime_le (d1 d2 : datetime) : Prop := datetime_compare d1 d2 ≠ Gt.

(** [d.strftime("%Y-%m-%d %H:%M:%S")]: the clock reading to the second. *)
Definition to_the_second (d : datetime) : string :=
  zero_pad 4 (year d) +:+ "-" +:+ zero_pad 2 (month d) +:+ "-" +:+
  zero_pad 2 (day d) +:+ " " +:+ zero_pad 2 (hour d) +:+ ":" +:+
  zero_pad 2 (minute d) +:+ ":" +:+ zero_pad 2 (second d).


(** The clock reading a request takes, if it takes one. *)
Definition reading (rq : request) : option datetime :=
  match rq with
  | CreateNote utcnow _ _ | UpdateNote utcnow _ _ => Some utcnow
  | _ => None
  end.

(** The clock never steps back: every reading is a valid datetime that is
    not earlier than the one before it, starting from [last]. *)
Fixpoint clock_monotone (last : datetime) (rqs : list request) : Prop :=
  match rqs with
  | [] => True
  | rq :: rqs' =>
      match reading rq with
      | Some now =>
          valid_datetime now ∧ datetime_le last now ∧ clock_monotone now rqs'
      | None => clock_monotone last rqs'
      end
  end.

(** Every stored note has [created_at <= updated_at], and was last written
    no later than the clock reading [last]. *)
Definition stamped (last : datetime) (t : gmap Z Row) : Prop :=
  map_Forall (λ _ r, (r_created_at r ≤ r_updated_at r)%string ∧
                     (r_updated_at r ≤ isoformat last)%string) t.

(** Every stored note has [created_at <= updated_at]. *)
Definition timestamps_ordered (t : gmap Z Row) : Prop :=
  map_Forall (λ _ r, (r_created_at r ≤ r_updated_at r)%string) t.

(** ** The effect of one request *)

Definition failed (rp : reply) : Prop :=
  match rp with
  | Listed (inl _) | Created (inl _) | Fetched (inl _) | Updated (inl _)
  | Deleted (inl _) => True
  | _ => False
  end.

(** [effect t rq rp t']: request [rq] on table [t] may be answered [rp] and
    leave table [t'].  A request that fails leaves the table as it was. *)
Inductive effect (t : gmap Z Row) : request → reply → gmap Z Row → Prop :=
| effect_failed rq rp : failed rp → effect t rq rp t
| effect_listed :
    map_Forall (λ _, text_ok) t →
    effect t ListNotes
      (Listed (inr (uncurry note_of <$> merge_sort order_by (map_to_list t)))) t
| effect_fetched k r :
    t !! k = Some r → row_ok k r →
    effect t (GetNote k) (Fetched (inr (note_of k r))) t
| effect_created utcnow rnd body k :
    new_rowid rnd t = Some k →
    NoteCreate_valid body = true → int64 k = true →
    effect t (CreateNote utcnow rnd body)
      (Created (inr (note_of k (inserted (isoformat utcnow) body))))
      (<[k := inserted (isoformat utcnow) body]> t)
| effect_updated utcnow k body r :
    t !! k = Some r → supplied body → NoteUpdate_valid body = true →
    row_ok k (merged (isoformat utcnow) body r) →
    effect t (UpdateNote utcnow k body)
      (Updated (inr (note_of k (merged (isoformat utcnow) body r))))
      (<[k := merged (isoformat utcnow) body r]> t)
| effect_deleted k r :
    t !! k = Some r → int64 k = true →
    effect t (DeleteNote k)
      (Deleted (inr {| status_code := 204; body := "" |})) (delete k t).

(** ** Deciding well-formedness *)

#[global] Instance text_ok_dec r : Decision (text_ok r).
Proof. unfold text_ok. apply _. Defined.

#[global] Instance row_ok_dec k r : Decision (row_ok k r).
Proof. unfold row_ok. apply _. Defined.

#[global] Instance wf_table_dec t : Decision (wf_table t).
Proof. unfold wf_table. apply _. Defined.

(** ** Replies that name an id *)

(** [rp] is the answer to a create that was given the id [k]. *)
Definition assigned (k : Z) (rp : reply) : Prop :=
  ∃ n, rp = Created (inr n) ∧ id n = k.

(** [rp] is a list result in which a note with id [k] appears. *)
Definition lists (k : Z) (rp : reply) : Prop :=
  ∃ l n, rp = Listed (inr l) ∧ n ∈ l ∧ id n = k.

(** The request at position [i] of [rqs] deleted the note [k], given the
    replies [rps] to [rqs]. *)
Definition deleted_at (k : Z) (rqs : list request) (rps : list reply) (i : nat)
  : Prop :=
  rqs !! i = Some (DeleteNote k) ∧
  ∃ resp, rps !! i = Some (Deleted (inr resp)).

(** No id is given out twice in the replies to [rqs], served from [c]. *)
Definition ids_never_reassigned (rqs : list request) (c : connection) : Prop :=
  ∀ (i j : nat) rp1 rp2 k,
    (i < j)%nat →
    (serve_all rqs c).1 !! i = Some rp1 → assigned k rp1 →
    (serve_all rqs c).1 !! j = Some rp2 → ¬ assigned k rp2.

(** ** Sample data *)

(** A clock reading on 2024-01-01 between 12:00:00 and 12:00:59. *)
Definition noon (s us : Z) : datetime :=
  {| year := 2024; month := 1; day := 1; hour := 12; minute := 0;
     second := s; microsecond := us |}.

(** A random source that is never consulted below [MAX_ROWID]. *)
Definition no_random : nat → Z := λ _, 0.

Definition note_AB : NoteCreate := {| nc_title := "A"; nc_content := "B" |}.

(** The database after one note was created at noon. *)
Definition one_note : connection :=
  (serve (CreateNote (noon 0 0) no_random note_AB) fresh).2.

Definition only_content (s : string) : NoteUpdate :=
  {| nu_title := None; nu_content := Some s |}.

Definition only_title (s : string) : NoteUpdate :=
  {| nu_title := Some s; nu_content := None |}.

Definition no_fields : NoteUpdate := {| nu_title := None; nu_content := None |}.

(** A text of [n] characters. *)
Definition chars (n : Z) : string :=
  Nat.iter (Z.to_nat n) (String "x") "".

(** ** Vocabulary of the handler properties *)


(** A table with one row whose content is empty, as only a writer other
    than these handlers can leave it. *)
Definition empty_content : connection :=
  {| notes := {[ 1 := {| r_title := "A"; r_content := "";
                          r_created_at := "2024-01-01T12:00:00";
                          r_updated_at := "2024-01-01T12:00:00" |} ]};
     executed := [] |}.

(** ** Vocabulary of the AUTOINCREMENT table *)

(** No stored rowid is beyond the largest one ever assigned. *)
Definition within_sequence (db : database) : Prop :=
  map_Forall (λ k _, k ≤ sqlite_sequence db) (notes (connection_of db)).

#[global] Instance within_sequence_dec db : Decision (within_sequence db).
Proof. unfold within_sequence. apply _. Defined.

(** The database after one note was created at noon. *)
Definition one_note_database : database :=
  (serve_sequenced (CreateNote (noon 0 0) no_random note_AB) fresh_database).2.

(** ** Vocabulary of the connection file *)

(** A text of whitespace only. *)
Definition blank (s : string) : Prop := lstrip s = EmptyString.

(** A text that [splitlines] does not cut. *)
Fixpoint no_linebreak (s : string) : bool :=
  match s with
  | String c s' => negb (is_linebreak c) && no_linebreak s'
  | EmptyString => true
  end.

Definition LF : string := String "010" EmptyString.

(** A connection file of three lines: a comment, a [File path:] line with an
    empty value and a [Connection string:] line. *)
Definition sample_file : string :=
  "# SQLite connection" +:+ LF +:+ "File path:   " +:+ LF +:+
  "Connection String: sqlite:////data/notes.db  " +:+ LF.

(** * Properties *)

(** ** The engine's rowid allocation *)

Section rowid.
Implicit Types (t : gmap Z Row) (k m : Z).

Lemma fold_max_None (l : list Z) :
  foldr (λ k acc, Some (from_option (Z.max k) k acc)) None l = None → l = [].
Proof. by destruct l. Qed.

Lemma fold_max_Some (l : list Z) m :
  foldr (λ k acc, Some (from_option (Z.max k) k acc)) None l = Some m →
  m ∈ l ∧ ∀ k, k ∈ l → k ≤ m.
Proof.
  revert m. induction l as [|x l IH]; intros m; simpl; [done|].
  destruct (foldr _ None l) as [m'|] eqn:E; simpl; intros [= <-].
  - destruct (IH m' eq_refl) as [Hin Hmax]. split.
    + destruct (Z.max_spec x m') as [[_ ->]|[_ ->]]; by constructor.
    + intros k [->|Hk]%elem_of_cons; [lia|]. specialize (Hmax k Hk). lia.
  - apply fold_max_None in E as ->. split; [by constructor|].
    intros k [->|Hk]%elem_of_cons; [lia|]. by apply elem_of_nil in Hk.
Qed.

Lemma elem_of_rowids t k : k ∈ (map_to_list t).*1 ↔ is_Some (t !! k).
Proof.
  rewrite list_elem_of_fmap. split.
  - intros [[k' r] [-> Hin]]. apply elem_of_map_to_list in Hin. by exists r.
  - intros [r Hr]. exists (k, r). split; [done|]. by apply elem_of_map_to_list.
Qed.

Lemma largest_rowid_None t : largest_rowid t = None ↔ t = ∅.
Proof.
  unfold largest_rowid. split.
  - intros H%fold_max_None. apply fmap_nil_inv in H.
    by apply map_to_list_empty_iff.
  - intros ->. by rewrite map_to_list_empty.
Qed.

Lemma largest_rowid_Some t m :
  largest_rowid t = Some m →
  is_Some (t !! m) ∧ ∀ k, is_Some (t !! k) → k ≤ m.
Proof.
  intros [Hin Hmax]%fold_max_Some. split.
  - by apply elem_of_rowids.
  - intros k Hk. by apply Hmax, elem_of_rowids.
Qed.

Lemma candidate_range (r : Z) :
  1 ≤ Z.land r (Z.shiftr MAX_ROWID 1) + 1 ≤ MAX_ROWID.
Proof.
  change (Z.shiftr MAX_ROWID 1) with (Z.ones 62).
  rewrite Z.land_ones by lia.
  pose proof (Z.mod_pos_bound r (2 ^ 62) ltac:(lia)). unfold MAX_ROWID. lia.
Qed.

(** The rowid of a new row is not in use. *)
Lemma new_rowid_fresh rnd t k : new_rowid rnd t = Some k → t !! k = None.
Proof.
  unfold new_rowid. destruct (largest_rowid t) as [v|] eqn:E.
  - apply largest_rowid_Some in E as [_ Hmax]. case_match.
    + intros [= <-]. destruct (t !! (v + 1)) eqn:El; [|done].
      specialize (Hmax (v + 1) ltac:(eauto)). lia.
    + intros [_ Hk]%find_some. by apply bool_decide_eq_true in Hk.
  - apply largest_rowid_None in E as ->. intros _. apply lookup_empty.
Qed.

(** Below [MAX_ROWID] the new rowid is one more than the largest in use. *)
Lemma new_rowid_succ rnd t v :
  largest_rowid t = Some v → v < MAX_ROWID → new_rowid rnd t = Some (v + 1).
Proof.
  intros E Hv. unfold new_rowid. rewrite E.
  by rewrite (proj2 (Z.ltb_lt _ _) Hv).
Qed.

Lemma new_rowid_empty rnd : new_rowid rnd ∅ = Some 1.
Proof. done. Qed.

(** Allocation fails only when the largest rowid in use is [MAX_ROWID]
    or more. *)
Lemma new_rowid_full rnd t :
  new_rowid rnd t = None → ∃ v, largest_rowid t = Some v ∧ MAX_ROWID ≤ v.
Proof.
  unfold new_rowid. destruct (largest_rowid t) as [v|]; [|done].
  case_match eqn:Hlt; [done|]. intros _. exists v. split; [done|].
  apply Z.ltb_ge in Hlt. lia.
Qed.

Lemma new_rowid_int64 rnd t k :
  wf_table t → new_rowid rnd t = Some k → int64 k = true.
Proof.
  intros Hwf. unfold new_rowid. destruct (largest_rowid t) as [v|] eqn:E.
  - apply largest_rowid_Some in E as [[r Hr] _].
    destruct (Hwf v r Hr) as [Hv _]. case_match eqn:Hlt.
    + intros [= <-]. apply Z.ltb_lt in Hlt. unfold int64 in *.
      apply andb_true_iff in Hv as [?%Z.leb_le ?%Z.leb_le].
      apply andb_true_iff. split; apply Z.leb_le; lia.
    + intros [Hin _]%find_some. apply in_map_iff in Hin as [i [<- _]].
      pose proof (candidate_range (rnd i)). unfold int64.
      apply andb_true_iff. split; apply Z.leb_le; unfold MAX_ROWID in *; lia.
  - intros [= <-]. done.
Qed.
End rowid.

(** ** What each handler does *)

Ltac run_handler :=
  unfold get_note, delete_note, update_note, create_note, list_notes,
    except_sqlite3_Error, with_connection, select_by_id, delete_by_id,
    update, insert, select_all, bind_int, execute, _row_to_note, raise, after;
  unfold mbind, M_bind, mret, M_ret; simpl.

Section handlers.
Implicit Types (c : connection) (k : Z) (r : Row).

Lemma bind_run {A B} (m : M A) (f : A → M B) c :
  (m ≫= f) c = match m c with
               | (inr a, c') => f a c'
               | (inl e, c') => (inl e, c')
               end.
Proof. done. Qed.

Lemma ret_run {A} (a : A) c : (mret a : M A) c = (inr a, c).
Proof. done. Qed.

Lemma get_note_found c k r :
  row_ok k r → notes c !! k = Some r →
  get_note k c = (inr (note_of k r), after (SELECT_by_id k) (notes c) c).
Proof.
  intros (Hk & Ht & Hc) Hr. run_handler.
  by rewrite Hk; simpl; rewrite Hr; simpl; rewrite Ht, Hc.
Qed.

Lemma get_note_missing c k :
  int64 k = true → notes c !! k = None →
  get_note k c =
    (inl (HTTPException 404 "Note not found"),
     after (SELECT_by_id k) (notes c) c).
Proof. intros Hk Hr. run_handler. by rewrite Hk; simpl; rewrite Hr. Qed.

Lemma get_note_overflow c k :
  int64 k = false → get_note k c = (inl OverflowError, c).
Proof. intros Hk. run_handler. rewrite Hk; simpl. by destruct c. Qed.

Lemma delete_note_found c k r :
  int64 k = true → notes c !! k = Some r →
  delete_note k c =
    (inr {| status_code := 204; body := "" |},
     after (DELETE k) (delete k (notes c)) c).
Proof. intros Hk Hr. run_handler. by rewrite Hk; simpl; rewrite Hr. Qed.

Lemma delete_note_missing c k :
  int64 k = true → notes c !! k = None →
  delete_note k c =
    (inl (HTTPException 404 "Note not found"), after (DELETE k) (notes c) c).
Proof. intros Hk Hr. run_handler. by rewrite Hk; simpl; rewrite Hr. Qed.

Lemma delete_note_overflow c k :
  int64 k = false → delete_note k c = (inl OverflowError, c).
Proof. intros Hk. run_handler. rewrite Hk; simpl. by destruct c. Qed.

Lemma merged_ok k r now payload :
  row_ok k r → NoteUpdate_valid payload = true →
  row_ok k (merged now payload r).
Proof.
  intros (Hk & Ht & Hc) [Hpt Hpc]%andb_true_iff. split; [done|].
  destruct payload as [[?|] [?|]]; by split.
Qed.

Lemma update_note_empty utcnow k c :
  update_note utcnow k {| nu_title := None; nu_content := None |} c =
    (inl (HTTPException 422
            "At least one of 'title' or 'content' must be provided"), c).
Proof. done. Qed.

Lemma alter_merged (t : gmap Z Row) k r now payload :
  t !! k = Some r →
  alter (λ r0, {| r_title := r_title (merged now payload r);
                  r_content := r_content (merged now payload r);
                  r_created_at := r_created_at r0;
                  r_updated_at := now |}) k t
  = <[k := merged now payload r]> t.
Proof.
  intros Hr. apply map_eq. intros j. destruct (decide (k = j)) as [<-|Hne].
  - by rewrite lookup_alter_eq, lookup_insert_eq, Hr.
  - by rewrite lookup_alter_ne, lookup_insert_ne.
Qed.

Lemma update_note_run utcnow c k r payload :
  int64 k = true → notes c !! k = Some r → supplied payload →
  let r' := merged (isoformat utcnow) payload r in
  update_note utcnow k payload c =
    if title_ok (r_title r') && content_ok (r_content r')
    then (inr (note_of k r'),
          {| notes := <[k := r']> (notes c);
             executed := executed c ++ updating (isoformat utcnow) k r' |})
    else (inl ValidationError,
          {| notes := notes c;
             executed := executed c ++ updating (isoformat utcnow) k r' |}).
Proof.
  intros Hk Hr Hs r'.
  pose proof (alter_merged (notes c) k r (isoformat utcnow) payload Hr) as Halt.
  destruct payload as [[pt|] [pc|]]; [| | |by destruct Hs as [[? [=]]|[? [=]]]].
  all: run_handler; rewrite Hk; simpl; rewrite Hr; simpl.
  all: simpl in Halt; rewrite Halt, lookup_insert_eq; simpl.
  all: unfold updating; destruct (title_ok _ && content_ok _); simpl.
  all: by rewrite <- !app_assoc.
Qed.

Lemma update_note_found utcnow c k r payload :
  row_ok k r → notes c !! k = Some r →
  NoteUpdate_valid payload = true → supplied payload →
  let r' := merged (isoformat utcnow) payload r in
  update_note utcnow k payload c =
    (inr (note_of k r'),
     {| notes := <[k := r']> (notes c);
        executed := executed c ++ updating (isoformat utcnow) k r' |}).
Proof.
  intros Hok Hr Hv Hs r'.
  pose proof (merged_ok k r (isoformat utcnow) payload Hok Hv) as (_ & Ht & Hc).
  destruct Hok as (Hk & _ & _).
  rewrite (update_note_run utcnow c k r) by done. subst r'. cbn zeta.
  by rewrite Ht, Hc.
Qed.

Lemma update_note_missing utcnow c k payload :
  int64 k = true → notes c !! k = None → supplied payload →
  update_note utcnow k payload c =
    (inl (HTTPException 404 "Note not found"),
     after (SELECT_by_id k) (notes c) c).
Proof.
  intros Hk Hr Hs.
  destruct payload as [[pt|] [pc|]]; [| | |by destruct Hs as [[? [=]]|[? [=]]]].
  all: run_handler; by rewrite Hk; simpl; rewrite Hr.
Qed.

Lemma update_note_overflow utcnow c k payload :
  int64 k = false → supplied payload →
  update_note utcnow k payload c = (inl OverflowError, c).
Proof.
  intros Hk Hs.
  destruct payload as [[pt|] [pc|]]; [| | |by destruct Hs as [[? [=]]|[? [=]]]].
  all: run_handler; rewrite Hk; simpl; by destruct c.
Qed.

Lemma create_note_ok utcnow rnd payload c k :
  NoteCreate_valid payload = true → int64 k = true →
  new_rowid rnd (notes c) = Some k →
  let r := inserted (isoformat utcnow) payload in
  create_note utcnow rnd payload c =
    (inr (note_of k r),
     {| notes := <[k := r]> (notes c);
        executed := executed c ++
          [INSERT (r_title r) (r_content r) (isoformat utcnow) (isoformat utcnow);
           SELECT_by_id k] |}).
Proof.
  intros [Ht Hc]%andb_true_iff Hk Hnew r. run_handler.
  rewrite Hnew; simpl. rewrite Hk; simpl. rewrite lookup_insert_eq; simpl.
  rewrite Ht, Hc; simpl. by rewrite <- !app_assoc.
Qed.

Lemma create_note_full utcnow rnd payload c :
  new_rowid rnd (notes c) = None →
  create_note utcnow rnd payload c =
    (inl (HTTPException 500 "Database error: database or disk is full"),
     after (INSERT (nc_title payload) (nc_content payload)
              (isoformat utcnow) (isoformat utcnow)) (notes c) c).
Proof. intros Hnew. run_handler. by rewrite Hnew. Qed.

Lemma mapM_row_to_note (l : list (Z * Row)) c :
  Forall (λ kr, text_ok kr.2) l →
  mapM (λ kr, _row_to_note (Some kr)) l c = (inr (uncurry note_of <$> l), c).
Proof.
  induction 1 as [|[k r] l [Ht Hc] _ IH]; [done|].
  simpl in *. rewrite Ht, Hc. simpl.
  rewrite bind_run, ret_run, bind_run, IH. by rewrite ret_run.
Qed.

Lemma list_notes_wf c :
  wf_table (notes c) →
  list_notes c =
    (inr (uncurry note_of <$> merge_sort order_by (map_to_list (notes c))),
     after SELECT_all (notes c) c).
Proof.
  intros Hwf. unfold list_notes, except_sqlite3_Error, with_connection,
    select_all, execute, mbind, M_bind at 1. simpl.
  rewrite mapM_row_to_note; [done|].
  apply Forall_forall. intros [k r] Hin.
  rewrite merge_sort_Permutation in Hin.
  apply elem_of_map_to_list in Hin. by apply (Hwf k r).
Qed.
End handlers.

(** ** The order of [list_notes] *)

Section ordering.
#[local] Instance key_le_total : Total key_le.
Proof.
  intros [s1|] [s2|]; simpl; auto. apply (total String.le).
Qed.

#[local] Instance key_le_trans : Transitive key_le.
Proof.
  intros [s1|] [s2|] [s3|]; simpl; try done. apply transitivity.
Qed.

Lemma key_le_antisym k1 k2 : key_le k1 k2 → key_le k2 k1 → k1 = k2.
Proof.
  destruct k1 as [s1|], k2 as [s2|]; simpl; try done.
  intros H1 H2. f_equal. by apply (anti_symm String.le).
Qed.

#[local] Instance order_by_total : Total order_by.
Proof.
  intros r1 r2. unfold order_by.
  destruct (decide (key_le (sort_key r1) (sort_key r2))) as [H12|]; [|auto].
  destruct (decide (key_le (sort_key r2) (sort_key r1))) as [H21|]; [|auto].
  pose proof (key_le_antisym _ _ H12 H21) as Heq.
  destruct (Z.le_ge_cases r1.1 r2.1); [right|left]; right; split; auto.
Qed.

#[local] Instance order_by_trans : Transitive order_by.
Proof.
  intros a b c [Hab|[Hab Hiab]] [Hbc|[Hbc Hibc]]; unfold order_by.
  - left. intros Hac. apply Hbc. etrans; [|exact Hac].
    by destruct (total key_le (sort_key a) (sort_key b)).
  - left. by rewrite <- Hbc.
  - left. by rewrite Hab.
  - right. split; [congruence|lia].
Qed.

(** [select_all] delivers every row once, in the order of the ORDER BY
    clause. *)
Lemma select_all_sorted (t : gmap Z Row) :
  StronglySorted order_by (merge_sort order_by (map_to_list t)) ∧
  merge_sort order_by (map_to_list t) ≡ₚ map_to_list t.
Proof.
  split; [apply StronglySorted_merge_sort; apply _|apply merge_sort_Permutation].
Qed.

(** On a well-formed table [list_notes] returns every note once, ordered
    by [datetime(updated_at)] descending and, among notes with the same
    [datetime(updated_at)], by id descending. *)
Lemma list_notes_sorted c :
  wf_table (notes c) →
  ∃ rows, (list_notes c).1 = inr (uncurry note_of <$> rows) ∧
          rows ≡ₚ map_to_list (notes c) ∧
          StronglySorted order_by rows.
Proof.
  intros Hwf. exists (merge_sort order_by (map_to_list (notes c))).
  rewrite list_notes_wf by done. destruct (select_all_sorted (notes c)). auto.
Qed.

(** Rows with the same [updated_at] come out by descending id. *)
Lemma order_by_same_updated_at (r1 r2 : Z * Row) :
  r_updated_at r1.2 = r_updated_at r2.2 → order_by r1 r2 → r2.1 ≤ r1.1.
Proof.
  intros Heq [Hlt|[_ ?]]; [|done]. exfalso. apply Hlt.
  unfold sort_key. rewrite Heq.
  by destruct (total key_le (sqlite_datetime (r_updated_at r2.2))
                 (sqlite_datetime (r_updated_at r2.2))).
Qed.
End ordering.

(** ** [isoformat] preserves the order of clock readings *)

Section isoformat_order.
Lemma digit_compare (a b : Z) :
  0 ≤ a ≤ 9 → 0 ≤ b ≤ 9 → Ascii.compare (digit a) (digit b) = (a ?= b).
Proof.
  intros Ha Hb.
  assert (Hdig : ∀ x, 0 ≤ x ≤ 9 →
            N_of_ascii (digit x) = Z.to_N (48 + x)).
  { intros x Hx.
    assert (x = 0 ∨ x = 1 ∨ x = 2 ∨ x = 3 ∨ x = 4 ∨ x = 5 ∨ x = 6 ∨
            x = 7 ∨ x = 8 ∨ x = 9) as Hcases by lia.
    repeat (destruct Hcases as [->|Hcases]; [done|]). by subst. }
  unfold Ascii.compare. rewrite !Hdig by done.
  rewrite Z2N.inj_compare by lia. apply Z.add_compare_mono_l.
Qed.

Lemma lex_assoc c1 c2 c3 : lex (lex c1 c2) c3 = lex c1 (lex c2 c3).
Proof. by destruct c1. Qed.

(** Splitting off the most significant of [w + 1] decimal digits. *)
Lemma compare_split (P dn rn dm rm : Z) :
  0 ≤ rn < P → 0 ≤ rm < P →
  (dn * P + rn ?= dm * P + rm) = lex (dn ?= dm) (rn ?= rm).
Proof.
  intros Hn Hm. destruct (Z.compare_spec dn dm) as [->|Hlt|Hgt]; simpl.
  - apply Z.add_compare_mono_l.
  - apply Z.compare_lt_iff. nia.
  - apply Z.compare_gt_iff. nia.
Qed.

Lemma append_cons a (x s : string) : String a x +:+ s = String a (x +:+ s).
Proof. done. Qed.

Lemma compare_cons a b (x y : string) :
  String.compare (String a x) (String b y) =
    lex (Ascii.compare a b) (String.compare x y).
Proof. simpl. by destruct (Ascii.compare a b). Qed.

Lemma zero_pad_compare (w : nat) (n m : Z) (s t : string) :
  0 ≤ n → 0 ≤ m →
  String.compare (zero_pad w n +:+ s) (zero_pad w m +:+ t) =
    lex (n `mod` 10 ^ Z.of_nat w ?= m `mod` 10 ^ Z.of_nat w) (String.compare s t).
Proof.
  intros Hn Hm. induction w as [|w IH].
  - simpl. by rewrite !Z.mod_1_r.
  - cbn [zero_pad]. rewrite !append_cons, compare_cons, IH.
    set (P := 10 ^ Z.of_nat w).
    assert (0 < P) as HP by (apply Z.pow_pos_nonneg; lia).
    assert (10 ^ Z.of_nat (S w) = P * 10) as ->.
    { rewrite Nat2Z.inj_succ, Z.pow_succ_r by lia. unfold P. lia. }
    rewrite !Z.rem_mul_r by lia.
    pose proof (Z.mod_pos_bound n P HP). pose proof (Z.mod_pos_bound m P HP).
    pose proof (Z.mod_pos_bound (n `div` P) 10 ltac:(lia)).
    pose proof (Z.mod_pos_bound (m `div` P) 10 ltac:(lia)).
    rewrite digit_compare by lia.
    rewrite (Z.add_comm (n `mod` P)), (Z.add_comm (m `mod` P)).
    rewrite (Z.mul_comm P), (Z.mul_comm P ((m `div` P) `mod` 10)).
    rewrite compare_split by done. by rewrite lex_assoc.
Qed.

Lemma separator_compare a (x y : string) :
  String.compare (String a "" +:+ x) (String a "" +:+ y) = String.compare x y.
Proof.
  rewrite !append_cons, compare_cons. unfold Ascii.compare.
  by rewrite N.compare_refl.
Qed.

Lemma append_nil_r (s : string) : s +:+ "" = s.
Proof. induction s as [|a s IH]; [done|]. by rewrite append_cons, IH. Qed.

Lemma fraction_compare (u1 u2 : Z) :
  0 ≤ u1 ≤ 999999 → 0 ≤ u2 ≤ 999999 →
  String.compare (if u1 =? 0 then "" else "." +:+ zero_pad 6 u1)
                 (if u2 =? 0 then "" else "." +:+ zero_pad 6 u2) = (u1 ?= u2).
Proof.
  intros H1 H2.
  destruct (Z.eqb_spec u1 0) as [->|Hn1], (Z.eqb_spec u2 0) as [->|Hn2].
  - done.
  - destruct u2; [done|done|lia].
  - destruct u1; [done|done|lia].
  - rewrite <- (append_nil_r (zero_pad 6 u1)), <- (append_nil_r (zero_pad 6 u2)).
    rewrite separator_compare, zero_pad_compare by lia.
    rewrite !Z.mod_small by lia. by destruct (u1 ?= u2).
Qed.

(** Comparing two [isoformat] texts byte by byte is comparing the clock
    readings they were made from. *)
Lemma isoformat_compare (d1 d2 : datetime) :
  valid_datetime d1 → valid_datetime d2 →
  String.compare (isoformat d1) (isoformat d2) = datetime_compare d1 d2.
Proof.
  intros (HY1 & HM1 & HD1 & Hh1 & Hm1 & Hs1 & Hu1)
         (HY2 & HM2 & HD2 & Hh2 & Hm2 & Hs2 & Hu2).
  unfold isoformat, datetime_compare.
  repeat (rewrite zero_pad_compare by lia; rewrite ?separator_compare).
  rewrite fraction_compare by lia.
  by rewrite !Z.mod_small by lia.
Qed.

Lemma isoformat_mono (d1 d2 : datetime) :
  valid_datetime d1 → valid_datetime d2 → datetime_le d1 d2 →
  (isoformat d1 ≤ isoformat d2)%string.
Proof.
  intros H1 H2 Hle. unfold String.le, String.leb.
  rewrite isoformat_compare by done.
  unfold datetime_le in Hle. by destruct (datetime_compare d1 d2).
Qed.
End isoformat_order.

(** ** [datetime()] of an [isoformat] text *)

Section datetime_of_isoformat.
Lemma digit_is_digit (d : Z) :
  0 ≤ d ≤ 9 →
  is_digit (digit d) = true ∧ Z.of_nat (nat_of_ascii (digit d)) - 48 = d.
Proof.
  intros Hd.
  assert (d = 0 ∨ d = 1 ∨ d = 2 ∨ d = 3 ∨ d = 4 ∨ d = 5 ∨ d = 6 ∨
          d = 7 ∨ d = 8 ∨ d = 9) as Hcases by lia.
  repeat (destruct Hcases as [->|Hcases]; [done|]). by subst.
Qed.

Lemma get_digits_zero_pad (w : nat) (n acc : Z) (rest : string) :
  0 ≤ n →
  get_digits w acc (zero_pad w n +:+ rest) =
    Some (acc * 10 ^ Z.of_nat w + n `mod` 10 ^ Z.of_nat w, rest).
Proof.
  intros Hn. revert acc. induction w as [|w IH]; intros acc.
  - simpl. rewrite Z.mod_1_r. do 2 f_equal. lia.
  - cbn [zero_pad get_digits]. rewrite append_cons.
    set (P := 10 ^ Z.of_nat w).
    assert (0 < P) as HP by (apply Z.pow_pos_nonneg; lia).
    pose proof (Z.mod_pos_bound (n `div` P) 10 ltac:(lia)) as Hd.
    destruct (digit_is_digit ((n `div` P) `mod` 10) ltac:(lia)) as [-> ->].
    rewrite IH. fold P.
    assert (10 ^ Z.of_nat (S w) = P * 10) as ->.
    { rewrite Nat2Z.inj_succ, Z.pow_succ_r by lia. unfold P. lia. }
    rewrite (Z.rem_mul_r n P 10) by lia. do 2 f_equal. lia.
Qed.

Lemma field_zero_pad (w : nat) (lo hi n : Z) (rest : string) :
  0 ≤ n < 10 ^ Z.of_nat w → lo ≤ n ≤ hi →
  field w lo hi (zero_pad w n +:+ rest) = Some (n, rest).
Proof.
  intros Hn Hr. unfold field. rewrite get_digits_zero_pad by lia.
  replace (0 * 10 ^ Z.of_nat w + n `mod` 10 ^ Z.of_nat w) with n
    by (rewrite Z.mod_small; lia).
  cbn [mbind option_bind].
  by rewrite (proj2 (Z.leb_le lo n)), (proj2 (Z.leb_le n hi)) by lia.
Qed.

Lemma expect_separator a (rest : string) :
  expect a (String a "" +:+ rest) = Some rest.
Proof. rewrite append_cons. simpl. by rewrite Ascii.eqb_refl. Qed.

Lemma all_digits_zero_pad (w : nat) (n : Z) :
  0 ≤ n → all_digits (zero_pad w n) = true.
Proof.
  intros Hn. induction w as [|w IH]; [done|]. cbn [zero_pad all_digits].
  assert (0 < 10 ^ Z.of_nat w) as HP by (apply Z.pow_pos_nonneg; lia).
  pose proof (Z.mod_pos_bound (n `div` 10 ^ Z.of_nat w) 10 ltac:(lia)) as Hd.
  destruct (digit_is_digit ((n `div` 10 ^ Z.of_nat w) `mod` 10) ltac:(lia))
    as [-> _].
  by rewrite IH.
Qed.

Lemma fraction_ok_digits (x : string) :
  x ≠ "" → fraction_ok ("." +:+ x) = all_digits x.
Proof. by destruct x. Qed.

(** [datetime()] of a timestamp that [isoformat] wrote is the clock reading
    to the second: the microseconds do not reach the sort key. *)
Lemma sqlite_datetime_isoformat (d : datetime) :
  valid_datetime d → sqlite_datetime (isoformat d) = Some (to_the_second d).
Proof.
  intros (HY & HM & HD & Hh & Hm & Hs & Hu).
  unfold sqlite_datetime, isoformat.
  assert (10 ^ Z.of_nat 4 = 10000) as E4 by done.
  assert (10 ^ Z.of_nat 2 = 100) as E2 by done.
  do 5 (rewrite field_zero_pad by (rewrite ?E4, ?E2; lia);
        cbn [mbind option_bind]; rewrite expect_separator;
        cbn [mbind option_bind]).
  rewrite field_zero_pad by (rewrite ?E4, ?E2; lia). cbn [mbind option_bind].
  assert (fraction_ok (if microsecond d =? 0 then ""
                       else "." +:+ zero_pad 6 (microsecond d)) = true) as ->;
    [|done].
  destruct (microsecond d =? 0); [done|].
  rewrite fraction_ok_digits by discriminate.
  apply all_digits_zero_pad. lia.
Qed.

(** Two readings within the same second have the same sort key. *)
Lemma same_second_same_key (d1 d2 : datetime) :
  valid_datetime d1 → valid_datetime d2 →
  year d1 = year d2 → month d1 = month d2 → day d1 = day d2 →
  hour d1 = hour d2 → minute d1 = minute d2 → second d1 = second d2 →
  sqlite_datetime (isoformat d1) = sqlite_datetime (isoformat d2).
Proof.
  intros H1 H2 HY HM HD Hh Hm Hs.
  rewrite !sqlite_datetime_isoformat by done. unfold to_the_second.
  by rewrite HY, HM, HD, Hh, Hm, Hs.
Qed.


End datetime_of_isoformat.

(** ** Every request has one of the listed effects *)

Section effects.
Implicit Types (c : connection) (k : Z) (r : Row).

Lemma row_to_note_run k r c :
  _row_to_note (Some (k, r)) c =
    if title_ok (r_title r) && content_ok (r_content r)
    then (inr (note_of k r), c) else (inl ValidationError, c).
Proof. unfold _row_to_note. by case_match. Qed.

Lemma mapM_row_to_note_inv (l : list (Z * Row)) c :
  mapM (λ kr, _row_to_note (Some kr)) l c = (inr (uncurry note_of <$> l), c) ∧
    Forall (λ kr, text_ok kr.2) l
  ∨ ∃ e, mapM (λ kr, _row_to_note (Some kr)) l c = (inl e, c).
Proof.
  induction l as [|[k r] l IH]; [by left|].
  cbn [mapM]. rewrite bind_run, row_to_note_run.
  destruct (title_ok (r_title r)) eqn:Ht; [|right; by eexists].
  destruct (content_ok (r_content r)) eqn:Hc; [|right; by eexists].
  cbn [andb]. rewrite bind_run.
  destruct IH as [[-> Hl]|[e ->]]; [left|right; by eexists].
  split; [done|]. by constructor.
Qed.

Lemma list_notes_effect c :
  effect (notes c) ListNotes (Listed (list_notes c).1) (notes (list_notes c).2).
Proof.
  unfold list_notes, except_sqlite3_Error, with_connection, select_all, execute.
  rewrite bind_run. cbn beta iota.
  destruct (mapM_row_to_note_inv (merge_sort order_by (map_to_list (notes c)))
              {| notes := notes c; executed := executed c ++ [SELECT_all] |})
    as [[-> Hl]|[e ->]].
  - apply effect_listed. intros k r Hr. rewrite Forall_forall in Hl.
    apply (Hl (k, r)). rewrite merge_sort_Permutation.
    by apply elem_of_map_to_list.
  - destruct e; by apply effect_failed.
Qed.

Lemma get_note_effect c k :
  effect (notes c) (GetNote k) (Fetched (get_note k c).1) (notes (get_note k c).2).
Proof.
  destruct (int64 k) eqn:Hk.
  - destruct (notes c !! k) as [r|] eqn:Hr.
    + destruct (title_ok (r_title r)) eqn:Ht;
        [destruct (content_ok (r_content r)) eqn:Hc|].
      * rewrite (get_note_found c k r) by done. by apply effect_fetched.
      * run_handler. rewrite Hk; simpl; rewrite Hr; simpl; rewrite Ht, Hc.
        by apply effect_failed.
      * run_handler. rewrite Hk; simpl; rewrite Hr; simpl; rewrite Ht.
        by apply effect_failed.
    + rewrite get_note_missing by done. by apply effect_failed.
  - rewrite get_note_overflow by done. by apply effect_failed.
Qed.

Lemma delete_note_effect c k :
  effect (notes c) (DeleteNote k) (Deleted (delete_note k c).1)
    (notes (delete_note k c).2).
Proof.
  destruct (int64 k) eqn:Hk.
  - destruct (notes c !! k) as [r|] eqn:Hr.
    + rewrite (delete_note_found c k r) by done. by eapply effect_deleted.
    + rewrite delete_note_missing by done. by apply effect_failed.
  - rewrite delete_note_overflow by done. by apply effect_failed.
Qed.

Lemma POST_notes_effect utcnow rnd body c :
  effect (notes c) (CreateNote utcnow rnd body)
    (Created (POST_notes utcnow rnd body c).1)
    (notes (POST_notes utcnow rnd body c).2).
Proof.
  unfold POST_notes. destruct (NoteCreate_valid body) eqn:Hv;
    [|by apply effect_failed].
  destruct (new_rowid rnd (notes c)) as [k|] eqn:Hnew.
  - destruct (int64 k) eqn:Hk.
    + rewrite (create_note_ok utcnow rnd body c k) by done.
      by apply effect_created.
    + run_handler. rewrite Hnew; simpl; rewrite Hk; simpl.
      by apply effect_failed.
  - rewrite create_note_full by done. by apply effect_failed.
Qed.

Lemma supplied_dec (payload : NoteUpdate) :
  supplied payload ∨ payload = {| nu_title := None; nu_content := None |}.
Proof.
  destruct payload as [[pt|] [pc|]]; [left; left| left; left| left; right|right];
    simpl; eauto.
Qed.

Lemma PUT_notes_effect utcnow k body c :
  effect (notes c) (UpdateNote utcnow k body)
    (Updated (PUT_notes utcnow k body c).1)
    (notes (PUT_notes utcnow k body c).2).
Proof.
  unfold PUT_notes. destruct (NoteUpdate_valid body) eqn:Hv;
    [|by apply effect_failed].
  destruct (supplied_dec body) as [Hs| ->]; [|by apply effect_failed].
  destruct (int64 k) eqn:Hk.
  - destruct (notes c !! k) as [r|] eqn:Hr.
    + rewrite (update_note_run utcnow c k r) by done. cbn zeta.
      destruct (title_ok _) eqn:Ht; [destruct (content_ok _) eqn:Hc|];
        simpl; try by apply effect_failed.
      by apply effect_updated.
    + rewrite update_note_missing by done. by apply effect_failed.
  - rewrite update_note_overflow by done. by apply effect_failed.
Qed.

(** Whatever the table holds, a request changes it in one of the ways of
    [effect]. *)
Lemma serve_effect rq c :
  effect (notes c) rq (serve rq c).1 (notes (serve rq c).2).
Proof.
  destruct rq as [|utcnow rnd body|k|utcnow k body|k]; simpl.
  - pose proof (list_notes_effect c). by destruct (list_notes c).
  - pose proof (POST_notes_effect utcnow rnd body c). by destruct (POST_notes _ _ _ c).
  - pose proof (get_note_effect c k). by destruct (get_note k c).
  - pose proof (PUT_notes_effect utcnow k body c). by destruct (PUT_notes _ _ _ c).
  - pose proof (delete_note_effect c k). by destruct (delete_note k c).
Qed.
End effects.

(** ** What one request preserves *)

Section steps.
Implicit Types (t : gmap Z Row) (k : Z) (r : Row) (rq : request) (rp : reply).

(** An id that is not in the table stays out of it, and out of any list
    result, unless the request is a create that is given this id. *)
Lemma effect_absent t rq rp t' k :
  effect t rq rp t' → t !! k = None → ¬ assigned k rp →
  t' !! k = None ∧ ¬ lists k rp.
Proof.
  intros Heff Hk Hna. destruct Heff as [rq rp Hf| Hok |k0 r Hr Hok
    |utcnow rnd body k0 Hnew Hv Hk0 |utcnow k0 body r Hr Hs Hv Hok |k0 r Hr Hk0].
  - split; [done|]. intros (l & n & -> & _). done.
  - split; [done|]. intros (l & n & [= <-] & Hn & Hid).
    apply list_elem_of_fmap in Hn as [[k' r'] [-> Hin]].
    rewrite merge_sort_Permutation in Hin.
    apply elem_of_map_to_list in Hin. simpl in Hid. congruence.
  - split; [done|]. by intros (l & n & [=] & _).
  - split; [|by intros (l & n & [=] & _)].
    rewrite lookup_insert_ne; [done|]. intros ->. apply Hna. by eexists.
  - split; [|by intros (l & n & [=] & _)].
    rewrite lookup_insert_ne; [done|]. congruence.
  - split; [|by intros (l & n & [=] & _)].
    apply lookup_delete_None. auto.
Qed.

(** A stored note stays stored unless the request is a delete of its id
    that succeeds. *)
Lemma effect_present t rq rp t' k :
  effect t rq rp t' → is_Some (t !! k) →
  is_Some (t' !! k) ∨ (rq = DeleteNote k ∧ ∃ resp, rp = Deleted (inr resp)).
Proof.
  intros Heff Hk. destruct Heff as [rq rp Hf| Hok |k0 r Hr Hok
    |utcnow rnd body k0 Hnew Hv Hk0 |utcnow k0 body r Hr Hs Hv Hok |k0 r Hr Hk0];
    try by left.
  - left. apply lookup_insert_is_Some'. by right.
  - left. apply lookup_insert_is_Some'. by right.
  - destruct (decide (k0 = k)) as [->|Hne]; [right; eauto|left].
    by rewrite lookup_delete_ne.
Qed.

(** No request changes the [created_at] of a note that it leaves stored. *)
Lemma effect_keeps_created_at t rq rp t' k r r' :
  effect t rq rp t' → t !! k = Some r → t' !! k = Some r' →
  r_created_at r' = r_created_at r.
Proof.
  intros Heff Hk Hk'. destruct Heff as [rq rp Hf| Hok |k0 r0 Hr Hok
    |utcnow rnd body k0 Hnew Hv Hk0 |utcnow k0 body r0 Hr Hs Hv Hok |k0 r0 Hr Hk0];
    try congruence.
  - apply new_rowid_fresh in Hnew.
    rewrite lookup_insert_ne in Hk' by congruence. congruence.
  - destruct (decide (k0 = k)) as [->|Hne].
    + rewrite lookup_insert_eq in Hk'. injection Hk' as <-. simpl. congruence.
    + rewrite lookup_insert_ne in Hk' by done. congruence.
  - apply lookup_delete_Some in Hk' as [_ Hk']. congruence.
Qed.

(** While the clock does not step back, every stored note keeps
    [created_at <= updated_at <= the latest clock reading]. *)
Lemma effect_stamped last t rq rp t' :
  effect t rq rp t' → valid_datetime last → stamped last t →
  match reading rq with
  | Some now => valid_datetime now ∧ datetime_le last now
  | None => True
  end →
  stamped (default last (reading rq)) t'.
Proof.
  intros Heff Hlast Hst Hclock.
  assert (stamped (default last (reading rq)) t) as Hst'.
  { destruct (reading rq) as [now|]; [|done]. destruct Hclock as [Hnow Hle].
    intros k r Hr. destruct (Hst k r Hr) as [Hcu Hul]. split; [done|].
    etrans; [exact Hul|]. by apply isoformat_mono. }
  destruct Heff as [rq rp Hf| Hok |k0 r0 Hr Hok
    |utcnow rnd body k0 Hnew Hv Hk0 |utcnow k0 body r0 Hr Hs Hv Hok |k0 r0 Hr Hk0];
    try done.
  - apply map_Forall_insert_2; [|done]. simpl. done.
  - apply map_Forall_insert_2; [|done]. simpl. split; [|done].
    destruct Hclock as [Hnow Hle]. destruct (Hst k0 r0 Hr) as [Hcu Hul].
    etrans; [exact Hcu|]. etrans; [exact Hul|]. by apply isoformat_mono.
  - by apply map_Forall_delete.
Qed.
End steps.

(** ** Sequences of requests *)

Section traces.
Implicit Types (k : Z) (rq : request) (rqs : list request) (c : connection).

Lemma serve_all_cons rq rqs c :
  serve_all (rq :: rqs) c =
    ((serve rq c).1 :: (serve_all rqs (serve rq c).2).1,
     (serve_all rqs (serve rq c).2).2).
Proof. simpl. by destruct (serve rq c), (serve_all rqs _). Qed.

Lemma effect_assigned (t t' : gmap Z Row) rq rp k :
  effect t rq rp t' → assigned k rp → t !! k = None ∧ is_Some (t' !! k).
Proof.
  intros Heff (n & -> & Hid). inversion Heff as [? ? Hf| | |
    utcnow rnd body k0 Hnew Hv Hk0 | |]; subst; [done|].
  simpl. split; [by eapply new_rowid_fresh|]. by rewrite lookup_insert_eq.
Qed.

Lemma effect_created_stamps (t t' : gmap Z Row) rq n :
  effect t rq (Created (inr n)) t' → created_at n = updated_at n.
Proof. intros Heff. by inversion Heff; subst. Qed.

Lemma elem_of_replies rp rqs c :
  rp ∈ (serve_all rqs c).1 → ∃ rq c0, rp = (serve rq c0).1.
Proof.
  revert c. induction rqs as [|rq rqs IH]; intros c.
  - simpl. by intros ?%elem_of_nil.
  - rewrite serve_all_cons. simpl. intros [->|Hin]%elem_of_cons; eauto.
Qed.

(** An id that is not in the table appears in no list result for as long
    as no create is given that id. *)
Lemma absent_until_assigned k rqs c :
  notes c !! k = None →
  (∀ rp, rp ∈ (serve_all rqs c).1 → ¬ assigned k rp) →
  notes (serve_all rqs c).2 !! k = None ∧
  ∀ rp, rp ∈ (serve_all rqs c).1 → ¬ lists k rp.
Proof.
  revert c. induction rqs as [|rq rqs IH]; intros c Hk Hna.
  - split; [done|]. simpl. by intros rp ?%elem_of_nil.
  - rewrite serve_all_cons in *. simpl in *.
    destruct (effect_absent _ _ _ _ k (serve_effect rq c) Hk) as [Hk1 Hnl].
    { apply Hna. by left. }
    destruct (IH _ Hk1) as [Hk2 Hnls].
    { intros rp Hin. apply Hna. by right. }
    split; [done|]. by intros rp [->|Hin]%elem_of_cons; auto.
Qed.

(** A stored note that is gone after [rqs] was deleted by one of them. *)
Lemma present_until_deleted k rqs c :
  is_Some (notes c !! k) → notes (serve_all rqs c).2 !! k = None →
  ∃ i, deleted_at k rqs (serve_all rqs c).1 i.
Proof.
  revert c. induction rqs as [|rq rqs IH]; intros c Hk Hgone.
  - simpl in Hgone. rewrite Hgone in Hk. by destruct Hk.
  - rewrite serve_all_cons in *. simpl in *.
    destruct (effect_present _ _ _ _ k (serve_effect rq c) Hk)
      as [Hk1|[-> [resp Hrp]]].
    + destruct (IH _ Hk1 Hgone) as [i [Hrq Hrp]]. by exists (S i).
    + exists 0%nat. split; [done|]. exists resp. simpl. by f_equal.
Qed.

Lemma serve_all_stamped rqs last c :
  valid_datetime last → stamped last (notes c) → clock_monotone last rqs →
  ∃ last', stamped last' (notes (serve_all rqs c).2).
Proof.
  revert last c. induction rqs as [|rq rqs IH]; intros last c Hlast Hst Hclock.
  - by exists last.
  - rewrite serve_all_cons. simpl in *.
    pose proof (effect_stamped last _ _ _ _ (serve_effect rq c) Hlast Hst) as Hst1.
    destruct (reading rq) as [now|]; simpl in *.
    + destruct Hclock as (Hnow & Hle & Hclock). by apply (IH now); auto.
    + by apply (IH last); auto.
Qed.
End traces.

(** A decidable proposition about concrete data, settled by evaluation. *)
Ltac by_evaluation := apply (bool_decide_unpack _); vm_compute; exact I.

(** * The update operation *)

Section update.
(** C1. For an existing note id and a valid update payload that supplies at
    least one of title and content, [update_note] returns the note with
    exactly the supplied fields replaced, every omitted field kept from the
    stored row, [updated_at] set to the clock reading in ISO form, and [id]
    and [created_at] unchanged; the table differs from the old one in that
    row only.  In particular an update of the title alone keeps the content
    and an update of the content alone keeps the title. *)
Theorem update_note_merges_supplied_fields utcnow note_id payload c r :
  wf_table (notes c) → notes c !! note_id = Some r →
  NoteUpdate_valid payload = true → supplied payload →
  ∃ n c',
    update_note utcnow note_id payload c = (inr n, c') ∧
    id n = note_id ∧
    title n = default (r_title r) (nu_title payload) ∧
    content n = default (r_content r) (nu_content payload) ∧
    (nu_title payload = None → title n = r_title r) ∧
    (nu_content payload = None → content n = r_content r) ∧
    updated_at n = isoformat utcnow ∧
    created_at n = r_created_at r ∧
    notes c' !! note_id =
      Some {| r_title := title n; r_content := content n;
              r_created_at := r_created_at r;
              r_updated_at := isoformat utcnow |} ∧
    ∀ k, k ≠ note_id → notes c' !! k = notes c !! k.
Proof.
  intros Hwf Hr Hv Hs. eexists _, _. split.
  { apply (update_note_found utcnow c note_id r); [by apply Hwf|done..]. }
  simpl. repeat split.
  - by intros ->.
  - by intros ->.
  - by rewrite lookup_insert_eq.
  - intros k Hk. by rewrite lookup_insert_ne.
Qed.

Lemma update_note_merges_supplied_fields_witness :
  ∃ n c',
    update_note (noon 7 0) 1 (only_content "C") one_note = (inr n, c') ∧
    title n = "A" ∧ content n = "C" ∧
    created_at n = "2024-01-01T12:00:00" ∧
    updated_at n = "2024-01-01T12:00:07".
Proof.
  destruct (update_note_merges_supplied_fields (noon 7 0) 1 (only_content "C")
              one_note (inserted (isoformat (noon 0 0)) note_AB))
    as (n & c' & Hrun & _ & Ht & Hc & _ & _ & Hu & Hcr & _).
  - by_evaluation.
  - by vm_compute.
  - by vm_compute.
  - right. by eexists.
  - exists n, c'. repeat split; [exact Hrun|exact Ht|exact Hc|exact Hcr|exact Hu].
Defined.

(** C7. An update that supplies neither title nor content is answered with
    [HTTPException(422)], by the handler and so by the route, and the
    connection is exactly what it was: no statement has been executed and
    the table is unchanged. *)
Theorem update_note_without_fields_is_422 utcnow note_id payload c :
  ¬ supplied payload →
  ∃ detail,
    update_note utcnow note_id payload c = (inl (HTTPException 422 detail), c) ∧
    PUT_notes utcnow note_id payload c = (inl (HTTPException 422 detail), c) ∧
    http_status 200 (PUT_notes utcnow note_id payload c).1 = 422 ∧
    executed (PUT_notes utcnow note_id payload c).2 = executed c ∧
    notes (PUT_notes utcnow note_id payload c).2 = notes c.
Proof.
  intros Hs. destruct (supplied_dec payload) as [?| ->]; [done|].
  eexists. by repeat split.
Qed.

Lemma update_note_without_fields_is_422_witness :
  ¬ supplied no_fields ∧
  ∃ detail,
    update_note (noon 7 0) 1 no_fields one_note =
      (inl (HTTPException 422 detail), one_note).
Proof.
  assert (¬ supplied no_fields) as Hs by (by intros [[? [=]]|[? [=]]]).
  split; [exact Hs|].
  destruct (update_note_without_fields_is_422 (noon 7 0) 1 no_fields one_note Hs)
    as (detail & Hrun & _).
  by exists detail.
Defined.

(** C10. An update that supplies no field is answered 422 also when no row
    has the id, where an update that supplies a field is answered 404: the
    handler tests the payload before it looks for the row. *)
Theorem empty_update_of_missing_note_is_422 utcnow note_id payload c :
  notes c !! note_id = None → ¬ supplied payload →
  http_status 200 (update_note utcnow note_id payload c).1 = 422 ∧
  http_status 200 (PUT_notes utcnow note_id payload c).1 = 422 ∧
  ∀ payload', supplied payload' → int64 note_id = true →
    http_status 200 (update_note utcnow note_id payload' c).1 = 404.
Proof.
  intros Hr Hs. destruct (supplied_dec payload) as [?| ->]; [done|].
  repeat split. intros payload' Hs' Hk. by rewrite update_note_missing.
Qed.

Lemma empty_update_of_missing_note_is_422_witness :
  http_status 200 (update_note (noon 7 0) 5 no_fields one_note).1 = 422 ∧
  http_status 200 (update_note (noon 7 0) 5 (only_title "T") one_note).1 = 404.
Proof.
  destruct (empty_update_of_missing_note_is_422 (noon 7 0) 5 no_fields one_note)
    as (H422 & _ & H404).
  - by vm_compute.
  - by intros [[? [=]]|[? [=]]].
  - split; [exact H422|]. apply H404; [left; by eexists|by vm_compute].
Defined.
End update.

(** * Creating, fetching and deleting *)

Section create_get_delete.
(** C3. On a well-formed table a valid payload is either stored, and then
    the returned note carries the payload's title and content and equal
    [created_at] and [updated_at], and [get_note] on the returned id yields
    that same note; or the INSERT fails, which happens only when the largest
    rowid in use has reached [MAX_ROWID] and leaves the table unchanged. *)
Theorem create_then_get_round_trip utcnow rnd payload c :
  wf_table (notes c) → NoteCreate_valid payload = true →
  match create_note utcnow rnd payload c with
  | (inr n, c') =>
      title n = nc_title payload ∧ content n = nc_content payload ∧
      created_at n = updated_at n ∧ created_at n = isoformat utcnow ∧
      ∃ c'', get_note (id n) c' = (inr n, c'') ∧ notes c'' = notes c'
  | (inl e, c') =>
      e = HTTPException 500 "Database error: database or disk is full" ∧
      notes c' = notes c ∧
      ∃ v, largest_rowid (notes c) = Some v ∧ MAX_ROWID ≤ v
  end.
Proof.
  intros Hwf Hv. destruct (new_rowid rnd (notes c)) as [k|] eqn:Hnew.
  - pose proof (new_rowid_int64 _ _ _ Hwf Hnew) as Hk.
    rewrite (create_note_ok utcnow rnd payload c k) by done.
    apply andb_true_iff in Hv as [Ht Hc].
    repeat split. eexists. split.
    + simpl. apply get_note_found; [done|]. apply lookup_insert_eq.
    + done.
  - rewrite create_note_full by done. repeat split.
    by apply new_rowid_full in Hnew.
Qed.

Lemma create_then_get_round_trip_witness :
  ∃ n c' c'',
    create_note (noon 0 0) no_random note_AB fresh = (inr n, c') ∧
    get_note (id n) c' = (inr n, c'') ∧
    title n = "A" ∧ content n = "B" ∧ created_at n = updated_at n.
Proof.
  pose proof (create_then_get_round_trip (noon 0 0) no_random note_AB fresh) as H.
  destruct (create_note (noon 0 0) no_random note_AB fresh) as [[e|n] c'] eqn:E.
  - exfalso. vm_compute in E. discriminate E.
  - destruct H as (Ht & Hc & Heq & _ & c'' & Hget & _).
    + by_evaluation.
    + by vm_compute.
    + exists n, c', c''. repeat split; [exact Hget|exact Ht|exact Hc|exact Heq].
Defined.

(** C8. [POST /notes] hands the payload to [create_note] exactly when the
    title has 1 to 200 characters and the content 1 to 20000; otherwise it
    answers 422 and the connection is untouched, so no row is inserted.  A
    title of 200 characters is therefore accepted, and an empty title, a
    title of 201 characters, an empty content and a content of 20001
    characters are each rejected. *)
Theorem POST_notes_length_bounds utcnow rnd body c :
  (1 ≤ len (nc_title body) ≤ 200 ∧ 1 ≤ len (nc_content body) ≤ 20000 →
     POST_notes utcnow rnd body c = create_note utcnow rnd body c) ∧
  (len (nc_title body) = 0 ∨ 201 ≤ len (nc_title body) ∨
   len (nc_content body) = 0 ∨ 20001 ≤ len (nc_content body) →
     ∃ detail,
       POST_notes utcnow rnd body c = (inl (HTTPException 422 detail), c) ∧
       http_status 201 (POST_notes utcnow rnd body c).1 = 422).
Proof.
  unfold POST_notes, NoteCreate_valid, title_ok, content_ok. split.
  - intros [[??] [??]].
    by rewrite !(proj2 (Z.leb_le _ _)) by done.
  - intros Hbad.
    assert ((1 <=? len (nc_title body)) && (len (nc_title body) <=? 200) &&
            ((1 <=? len (nc_content body)) && (len (nc_content body) <=? 20000))
            = false) as ->; [|by eexists].
    destruct (Z.leb_spec 1 (len (nc_title body))),
             (Z.leb_spec (len (nc_title body)) 200),
             (Z.leb_spec 1 (len (nc_content body))),
             (Z.leb_spec (len (nc_content body)) 20000); simpl; try done; lia.
Qed.

Lemma POST_notes_length_bounds_witness :
  http_status 201
    (POST_notes (noon 0 0) no_random
       {| nc_title := chars 200; nc_content := "B" |} fresh).1 = 201 ∧
  http_status 201
    (POST_notes (noon 0 0) no_random
       {| nc_title := chars 201; nc_content := "B" |} fresh).1 = 422 ∧
  http_status 201
    (POST_notes (noon 0 0) no_random
       {| nc_title := "A"; nc_content := chars 20001 |} fresh).1 = 422.
Proof.
  split; [|split].
  - rewrite (proj1 (POST_notes_length_bounds (noon 0 0) no_random
                      {| nc_title := chars 200; nc_content := "B" |} fresh)).
    + by vm_compute.
    + by vm_compute.
  - destruct (proj2 (POST_notes_length_bounds (noon 0 0) no_random
                       {| nc_title := chars 201; nc_content := "B" |} fresh))
      as (detail & _ & Hst); [|exact Hst].
    right; left. by vm_compute.
  - destruct (proj2 (POST_notes_length_bounds (noon 0 0) no_random
                       {| nc_title := "A"; nc_content := chars 20001 |} fresh))
      as (detail & _ & Hst); [|exact Hst].
    right; right; right. by vm_compute.
Defined.

(** The two ways [get_note] and [delete_note] end on an id with no matching
    row.  When the id is within the range of a 64-bit integer each raises
    [HTTPException(404)] and leaves the table unchanged.  An id outside that
    range cannot be bound to the statement: both handlers end in an
    [OverflowError], the connection untouched. *)
Theorem missing_note_is_404 note_id c :
  notes c !! note_id = None →
  if int64 note_id then
    (∃ detail c', get_note note_id c = (inl (HTTPException 404 detail), c') ∧
                  notes c' = notes c) ∧
    (∃ detail c', delete_note note_id c = (inl (HTTPException 404 detail), c') ∧
                  notes c' = notes c)
  else
    get_note note_id c = (inl OverflowError, c) ∧
    delete_note note_id c = (inl OverflowError, c).
Proof.
  intros Hr. destruct (int64 note_id) eqn:Hk.
  - split; eexists _, _.
    + by rewrite get_note_missing.
    + by rewrite delete_note_missing.
  - by rewrite get_note_overflow, delete_note_overflow.
Qed.

Lemma missing_note_is_404_witness :
  http_status 200 (get_note 5 one_note).1 = 404 ∧
  http_status 204 (delete_note 5 one_note).1 = 404 ∧
  notes (delete_note 5 one_note).2 = notes one_note.
Proof.
  pose proof (missing_note_is_404 5 one_note) as H.
  change (int64 5) with true in H.
  destruct H as [(d1 & c1 & -> & _) (d2 & c2 & -> & Hn)].
  - by vm_compute.
  - repeat split. exact Hn.
Defined.

(** C6. [get_note] and [delete_note] answer an id with no matching row with
    404, except where the id is one that no 64-bit integer holds.  No row
    has the id 2^63, yet neither handler answers 404 for it: binding the id
    to the statement raises [OverflowError], which is neither the
    [HTTPException] nor the [sqlite3.Error] that the handlers catch, and the
    request is answered 500. *)
Lemma out_of_range_id_is_not_404 :
  notes one_note !! (2 ^ 63) = None ∧
  (get_note (2 ^ 63) one_note).1 = inl OverflowError ∧
  (delete_note (2 ^ 63) one_note).1 = inl OverflowError ∧
  http_status 200 (get_note (2 ^ 63) one_note).1 = 500 ∧
  http_status 204 (delete_note (2 ^ 63) one_note).1 = 500.
Proof. by vm_compute. Qed.

(** Whatever way the table allots ids: deleting an existing note returns
    204 with an empty body and removes exactly that row; a [get_note] on the
    id right after is answered 404; and in the requests that follow, the id
    appears in no list result for as long as no create is given that id. *)
Theorem delete_note_removes_the_note note_id c r :
  wf_table (notes c) → notes c !! note_id = Some r →
  ∃ c',
    delete_note note_id c = (inr {| status_code := 204; body := "" |}, c') ∧
    notes c' = delete note_id (notes c) ∧
    http_status 200 (get_note note_id c').1 = 404 ∧
    ∀ rqs,
      (∀ rp, rp ∈ (serve_all rqs c').1 → ¬ assigned note_id rp) →
      ∀ rp, rp ∈ (serve_all rqs c').1 → ¬ lists note_id rp.
Proof.
  intros Hwf Hr. destruct (Hwf note_id r Hr) as [Hk _].
  eexists. split; [by apply (delete_note_found c note_id r)|].
  split; [done|]. split.
  - rewrite get_note_missing; [done..|]. apply lookup_delete_eq.
  - intros rqs Hna. apply absent_until_assigned; [|done]. apply lookup_delete_eq.
Qed.

Lemma delete_note_removes_the_note_witness :
  ∃ c',
    delete_note 1 one_note = (inr {| status_code := 204; body := "" |}, c') ∧
    http_status 200 (get_note 1 c').1 = 404 ∧
    ∀ rp, rp ∈ (serve_all [GetNote 1; ListNotes] c').1 → ¬ lists 1 rp.
Proof.
  destruct (delete_note_removes_the_note 1 one_note
              (inserted (isoformat (noon 0 0)) note_AB))
    as (c' & Hdel & Hnotes & Hget & Hlist).
  - by_evaluation.
  - by vm_compute.
  - exists c'. split; [exact Hdel|]. split; [exact Hget|].
    apply Hlist. intros rp Hin (n & -> & _).
    cbn [serve_all serve] in Hin.
    destruct (get_note 1 c'), (list_notes _). simpl in Hin.
    apply elem_of_cons in Hin as [[=]|Hin].
    apply elem_of_cons in Hin as [[=]|Hin].
    by apply elem_of_nil in Hin.
Defined.

(** Were the table declared without AUTOINCREMENT ([new_rowid]), the id of
    a deleted note would be given to the next create when it was the
    largest, and be listed again. *)
Lemma deleted_id_is_listed_again :
  ∃ c',
    delete_note 1 one_note = (inr {| status_code := 204; body := "" |}, c') ∧
    ∃ rp, (serve_all [CreateNote (noon 9 0) no_random note_AB; ListNotes] c').1
            !! 1%nat = Some rp ∧ lists 1 rp.
Proof.
  eexists. split; [by vm_compute|].
  eexists. split; [by vm_compute|].
  eexists _, _. split; [done|]. split; [by left|done].
Qed.

(** Whatever way the table allots ids: the id a create is given is not the
    id of any stored note, and it is given to a later create only after the
    note that held it has been deleted by a request in between. *)
Theorem id_reassigned_only_after_delete rq1 rqs rq2 c k :
  assigned k (serve rq1 c).1 →
  assigned k (serve rq2 (serve_all rqs (serve rq1 c).2).2).1 →
  notes c !! k = None ∧
  ∃ i, deleted_at k rqs (serve_all rqs (serve rq1 c).2).1 i.
Proof.
  intros H1 H2.
  destruct (effect_assigned _ _ _ _ k (serve_effect rq1 c) H1) as [Hfresh Hin].
  split; [done|].
  destruct (effect_assigned _ _ _ _ k (serve_effect rq2 _) H2) as [Hgone _].
  by apply present_until_deleted.
Qed.

Lemma id_reassigned_only_after_delete_witness :
  deleted_at 1 [GetNote 1; DeleteNote 1]
    (serve_all [GetNote 1; DeleteNote 1]
       (serve (CreateNote (noon 0 0) no_random note_AB) fresh).2).1 1.
Proof.
  destruct (id_reassigned_only_after_delete
              (CreateNote (noon 0 0) no_random note_AB)
              [GetNote 1; DeleteNote 1]
              (CreateNote (noon 9 0) no_random note_AB) fresh 1)
    as [_ [i Hdel]].
  - eexists. split; [by vm_compute|done].
  - eexists. split; [by vm_compute|done].
  - destruct i as [|[|i]]; [| exact Hdel |].
    + exfalso. destruct Hdel as [Hrq _]. discriminate Hrq.
    + exfalso. destruct Hdel as [Hrq _]. discriminate Hrq.
Defined.

(** Were the table declared without AUTOINCREMENT ([new_rowid]), create,
    delete, create would give the id 1 twice. *)
Lemma id_reassigned_after_delete :
  ¬ ids_never_reassigned
      [CreateNote (noon 0 0) no_random note_AB; DeleteNote 1;
       CreateNote (noon 9 0) no_random note_AB] fresh.
Proof.
  intros H.
  refine (H 0%nat 2%nat _ _ 1 _ _ _ _ _); [lia|by vm_compute|..].
  - eexists. split; [done|done].
  - by vm_compute.
  - eexists. split; [done|done].
Qed.
End create_get_delete.

(** * Timestamps and the order of the list *)

Section timestamps.
(** C9, as amended.  Provided the clock never steps back from one request
    to the next, every stored note has [updated_at >= created_at] after
    every sequence of requests; a create returns a note whose two
    timestamps are equal; and no request changes the [created_at] of a note
    it leaves stored. *)
Theorem updated_at_not_before_created_at last rqs c :
  valid_datetime last → stamped last (notes c) → clock_monotone last rqs →
  timestamps_ordered (notes (serve_all rqs c).2) ∧
  (∀ n, Created (inr n) ∈ (serve_all rqs c).1 → created_at n = updated_at n) ∧
  (∀ rq c0 k r r',
     notes c0 !! k = Some r → notes (serve rq c0).2 !! k = Some r' →
     r_created_at r' = r_created_at r).
Proof.
  intros Hlast Hst Hclock. split; [|split].
  - destruct (serve_all_stamped rqs last c Hlast Hst Hclock) as [last' Hst'].
    intros k r Hr. by destruct (Hst' k r Hr).
  - intros n (rq & c0 & Hrp)%elem_of_replies.
    pose proof (serve_effect rq c0) as Heff. rewrite <- Hrp in Heff.
    by eapply effect_created_stamps.
  - intros rq c0 k r r'.
    exact (effect_keeps_created_at _ _ _ _ k r r' (serve_effect rq c0)).
Qed.

Lemma updated_at_not_before_created_at_witness :
  timestamps_ordered
    (notes (serve_all [CreateNote (noon 0 0) no_random note_AB;
                       UpdateNote (noon 7 0) 1 (only_content "C")] fresh).2).
Proof.
  apply (updated_at_not_before_created_at (noon 0 0)).
  - unfold valid_datetime. simpl. lia.
  - by_evaluation.
  - simpl. unfold valid_datetime, datetime_le. simpl.
    repeat split; try lia; discriminate.
Defined.

(** C9 as stated fails when the clock is set back between a create and an
    update: the note is created at 12:00:05 and updated at 12:00:02. *)
Lemma clock_set_back_breaks_order :
  ¬ timestamps_ordered
      (notes (serve_all [CreateNote (noon 5 0) no_random note_AB;
                         UpdateNote (noon 2 0) 1 (only_content "C")] fresh).2).
Proof.
  intros H.
  specialize (H 1 {| r_title := "A"; r_content := "C";
                     r_created_at := "2024-01-01T12:00:05";
                     r_updated_at := "2024-01-01T12:00:02" |}).
  simpl in H. by apply H; vm_compute.
Qed.

(** C2.  Two notes are created and the first is then updated, all within
    the second 12:00:00: note 1 is the most recently updated, yet
    [list_notes] returns note 2 first, because [datetime(updated_at)] drops
    the microseconds and the two keys tie. *)
Theorem list_notes_within_one_second :
  let c := (serve_all [CreateNote (noon 0 100000) no_random note_AB;
                       CreateNote (noon 0 200000) no_random note_AB;
                       UpdateNote (noon 0 400000) 1 (only_content "C")]
              fresh).2 in
  ∃ n2 n1,
    (list_notes c).1 = inr [n2; n1] ∧ id n2 = 2 ∧ id n1 = 1 ∧
    updated_at n2 = "2024-01-01T12:00:00.200000" ∧
    updated_at n1 = "2024-01-01T12:00:00.400000" ∧
    (updated_at n2 <? updated_at n1)%string = true ∧
    sqlite_datetime (updated_at n2) = sqlite_datetime (updated_at n1).
Proof. eexists _, _. split; [by vm_compute|]. by vm_compute. Qed.
End timestamps.

(** * Further properties of the handlers *)

Section more_handlers.
Implicit Types (c : connection) (k : Z) (r : Row) (rq : request).


(** X1. On a well-formed table [list_notes] returns every stored note
    exactly once: its result is a rearrangement of the stored notes, no id
    occurs in it twice, and the table is left as it is.  Nothing is said
    here of the order. *)
Theorem list_notes_returns_every_note_once c :
  wf_table (notes c) →
  ∃ l,
    (list_notes c).1 = inr l ∧
    l ≡ₚ uncurry note_of <$> map_to_list (notes c) ∧
    NoDup (id <$> l) ∧
    (∀ k r, notes c !! k = Some r ↔ note_of k r ∈ l) ∧
    notes (list_notes c).2 = notes c.
Proof.
  intros Hwf. rewrite list_notes_wf by done. eexists. split; [done|].
  destruct (select_all_sorted (notes c)) as [_ Hperm].
  assert (uncurry note_of <$> merge_sort order_by (map_to_list (notes c))
          ≡ₚ uncurry note_of <$> map_to_list (notes c)) as Hl
    by (by rewrite Hperm).
  split; [done|]. split; [|split; [|done]].
  - rewrite Hl, <- list_fmap_compose.
    rewrite (list_fmap_ext _ fst (map_to_list (notes c))) by (by intros ? []).
    apply NoDup_fst_map_to_list.
  - intros k r. rewrite Hl, list_elem_of_fmap. split.
    + intros Hr. exists (k, r). split; [done|]. by apply elem_of_map_to_list.
    + intros [[k' r'] [Heq Hin]]. apply elem_of_map_to_list in Hin.
      simpl in Heq. destruct r, r'. unfold note_of in Heq. simpl in Heq.
      by injection Heq as -> -> -> -> ->.
Qed.

Lemma list_notes_returns_every_note_once_witness :
  ∃ l, (list_notes one_note).1 = inr l ∧
       l ≡ₚ uncurry note_of <$> map_to_list (notes one_note) ∧
       NoDup (id <$> l).
Proof.
  destruct (list_notes_returns_every_note_once one_note)
    as (l & Hl & Hperm & Hnd & _).
  - by_evaluation.
  - by exists l.
Defined.




(** X3. [list_notes] and [get_note] never change the table, whatever it
    holds and whether they return or raise. *)
Theorem reads_leave_the_table_alone c k :
  notes (list_notes c).2 = notes c ∧ notes (get_note k c).2 = notes c.
Proof.
  split.
  - pose proof (list_notes_effect c) as Heff. by inversion Heff.
  - pose proof (get_note_effect c k) as Heff. by inversion Heff.
Qed.

Lemma effect_failed_unchanged (t t' : gmap Z Row) rq rp :
  effect t rq rp t' → failed rp → t' = t.
Proof. by destruct 1. Qed.

(** X4. A request that is answered with an error, of whatever kind, leaves
    the table exactly as it was: what a handler wrote before the exception
    is rolled back when the exception leaves the [with] block. *)
Theorem failed_request_changes_nothing rq c :
  failed (serve rq c).1 → notes (serve rq c).2 = notes c.
Proof. apply (effect_failed_unchanged _ _ rq), serve_effect. Qed.

Lemma failed_request_changes_nothing_witness :
  notes (serve (UpdateNote (noon 7 0) 5 (only_title "T")) one_note).2
  = notes one_note.
Proof.
  apply failed_request_changes_nothing. vm_compute. exact I.
Defined.

(** X5. When the row that an update would leave breaks the bounds of
    [NoteBase], which a valid payload causes only if the stored row already
    broke them in the field it keeps, [update_note] has executed its UPDATE
    when building the response raises [ValidationError]; the request is
    answered 500 and the UPDATE is rolled back. *)
Theorem update_note_rolls_back_an_invalid_row utcnow c k r payload :
  int64 k = true → notes c !! k = Some r → supplied payload →
  ¬ text_ok (merged (isoformat utcnow) payload r) →
  let r' := merged (isoformat utcnow) payload r in
  (update_note utcnow k payload c).1 = inl ValidationError ∧
  http_status 200 (update_note utcnow k payload c).1 = 500 ∧
  notes (update_note utcnow k payload c).2 = notes c ∧
  executed (update_note utcnow k payload c).2 =
    executed c ++ [SELECT_by_id k;
                   UPDATE (r_title r') (r_content r') (isoformat utcnow) k;
                   SELECT_by_id k].
Proof.
  intros Hk Hr Hs Hbad r'.
  rewrite (update_note_run utcnow c k r) by done. fold r'.
  destruct (title_ok (r_title r')) eqn:Ht;
    [destruct (content_ok (r_content r')) eqn:Hc|]; simpl; [|done..].
  by destruct Hbad.
Qed.

Lemma update_note_rolls_back_an_invalid_row_witness :
  (update_note (noon 7 0) 1 (only_title "T") empty_content).1
    = inl ValidationError ∧
  notes (update_note (noon 7 0) 1 (only_title "T") empty_content).2
    = notes empty_content.
Proof.
  destruct (update_note_rolls_back_an_invalid_row (noon 7 0) empty_content 1
              {| r_title := "A"; r_content := "";
                 r_created_at := "2024-01-01T12:00:00";
                 r_updated_at := "2024-01-01T12:00:00" |} (only_title "T"))
    as (Hr & _ & Hn & _).
  - by vm_compute.
  - by vm_compute.
  - left. by eexists.
  - intros [_ Hc]. vm_compute in Hc. discriminate Hc.
  - by split.
Defined.

Lemma effect_wf (t t' : gmap Z Row) rq rp :
  effect t rq rp t' → wf_table t → wf_table t'.
Proof.
  intros Heff Hwf. destruct Heff as [rq rp Hf| Hok |k0 r Hr Hok
    |utcnow rnd body k0 Hnew Hv Hk0 |utcnow k0 body r Hr Hs Hv Hok |k0 r Hr Hk0];
    try done.
  - apply map_Forall_insert_2; [|done].
    apply andb_true_iff in Hv as [??]. by repeat split.
  - by apply map_Forall_insert_2.
  - by apply map_Forall_delete.
Qed.

(** X6. The requests keep the table well formed: after any sequence of
    them every stored title has 1 to 200 characters, every stored content 1
    to 20000, and every id is a 64-bit integer, provided that was so
    before. *)
Theorem requests_keep_the_table_well_formed rqs c :
  wf_table (notes c) → wf_table (notes (serve_all rqs c).2).
Proof.
  revert c. induction rqs as [|rq rqs IH]; intros c Hwf; [done|].
  rewrite serve_all_cons. simpl. apply IH.
  by apply (effect_wf _ _ _ _ (serve_effect rq c)).
Qed.

Lemma requests_keep_the_table_well_formed_witness :
  wf_table
    (notes (serve_all [UpdateNote (noon 7 0) 1 (only_content "");
                       UpdateNote (noon 8 0) 1 (only_title (chars 201));
                       CreateNote (noon 9 0) no_random
                         {| nc_title := ""; nc_content := "B" |}]
              one_note).2).
Proof. apply requests_keep_the_table_well_formed. by_evaluation. Defined.

(** X7. A create that returns a note has added exactly one row, under an
    id that no stored note had, and every note stored before is still
    stored unchanged. *)
Theorem create_keeps_existing_notes utcnow rnd body c n c' :
  POST_notes utcnow rnd body c = (inr n, c') →
  notes c !! id n = None ∧
  notes c' !! id n = Some (inserted (isoformat utcnow) body) ∧
  (∀ k r, notes c !! k = Some r → notes c' !! k = Some r) ∧
  size (notes c') = S (size (notes c)).
Proof.
  intros Hrun. pose proof (POST_notes_effect utcnow rnd body c) as Heff.
  rewrite Hrun in Heff. simpl in Heff.
  inversion Heff as [? ? Hf| | |? ? ? k0 Hnew Hv Hk0 | |]; subst; [done|].
  apply new_rowid_fresh in Hnew. simpl. repeat split.
  - done.
  - by rewrite lookup_insert_eq.
  - intros k r Hr. rewrite lookup_insert_ne; [done|]. congruence.
  - by apply map_size_insert_None.
Qed.

Lemma create_keeps_existing_notes_witness :
  ∃ n c', POST_notes (noon 9 0) no_random note_AB one_note = (inr n, c') ∧
          id n = 2 ∧ size (notes c') = 2%nat.
Proof.
  destruct (POST_notes (noon 9 0) no_random note_AB one_note) as [[e|n] c'] eqn:E.
  - exfalso. vm_compute in E. discriminate E.
  - destruct (create_keeps_existing_notes _ _ _ _ _ _ E) as (_ & _ & _ & Hsize).
    exists n, c'. split; [done|]. split.
    + vm_compute in E. by injection E as <- _.
    + rewrite Hsize. by vm_compute.
Defined.

Lemma effect_deleted_inv (t t' : gmap Z Row) k resp :
  effect t (DeleteNote k) (Deleted (inr resp)) t' →
  is_Some (t !! k) ∧ int64 k = true ∧ t' = delete k t.
Proof. inversion 1; subst; [done|eauto]. Qed.

(** X8. A delete that succeeds removes the row of its id and no other, and
    a second delete of the same id is answered 404 and changes nothing. *)
Theorem delete_note_removes_only_its_row k c resp c' :
  delete_note k c = (inr resp, c') →
  is_Some (notes c !! k) ∧ notes c' !! k = None ∧
  (∀ j, j ≠ k → notes c' !! j = notes c !! j) ∧
  http_status 204 (delete_note k c').1 = 404 ∧
  notes (delete_note k c').2 = notes c'.
Proof.
  intros Hrun. pose proof (delete_note_effect c k) as Heff.
  rewrite Hrun in Heff. simpl in Heff.
  apply effect_deleted_inv in Heff as ([r Hr] & Hk & Ht).
  assert (notes c' !! k = None) as Hgone by (rewrite Ht; apply lookup_delete_eq).
  split; [by eexists|]. split; [done|]. split.
  - intros j Hj. rewrite Ht. by apply lookup_delete_ne.
  - by rewrite delete_note_missing.
Qed.

Lemma delete_note_removes_only_its_row_witness :
  http_status 204 (delete_note 1 (delete_note 1 one_note).2).1 = 404.
Proof.
  destruct (delete_note 1 one_note) as [[e|resp] c'] eqn:E.
  - exfalso. vm_compute in E. discriminate E.
  - by destruct (delete_note_removes_only_its_row _ _ _ _ E) as (_ & _ & _ & H & _).
Defined.

(** X9. After a successful update, [get_note] on the id returns the note
    that the update returned, and repeating the update with the same payload
    at the same clock reading returns that note again and leaves the table
    as the first update left it. *)
Theorem update_then_get_round_trip utcnow k payload c r :
  wf_table (notes c) → notes c !! k = Some r →
  NoteUpdate_valid payload = true → supplied payload →
  ∃ n c',
    update_note utcnow k payload c = (inr n, c') ∧
    (get_note k c').1 = inr n ∧
    (update_note utcnow k payload c').1 = inr n ∧
    notes (update_note utcnow k payload c').2 = notes c'.
Proof.
  intros Hwf Hr Hv Hs. pose proof (Hwf k r Hr) as Hok.
  pose proof (merged_ok k r (isoformat utcnow) payload Hok Hv) as Hok'.
  eexists _, _. split; [by apply (update_note_found utcnow c k r)|].
  split.
  - erewrite get_note_found; [done|done|]. apply lookup_insert_eq.
  - erewrite (update_note_found utcnow _ k); [|done| |done..].
    2:{ simpl. apply lookup_insert_eq. }
    simpl. assert (merged (isoformat utcnow) payload
                     (merged (isoformat utcnow) payload r)
                   = merged (isoformat utcnow) payload r) as ->.
    { by destruct payload as [[?|] [?|]]. }
    split; [done|]. by rewrite insert_insert_eq.
Qed.

Lemma update_then_get_round_trip_witness :
  ∃ n c', update_note (noon 7 0) 1 (only_content "C") one_note = (inr n, c') ∧
          (get_note 1 c').1 = inr n.
Proof.
  destruct (update_then_get_round_trip (noon 7 0) 1 (only_content "C") one_note
              (inserted (isoformat (noon 0 0)) note_AB))
    as (n & c' & Hrun & Hget & _).
  - by_evaluation.
  - by vm_compute.
  - by vm_compute.
  - right. by eexists.
  - by exists n, c'.
Defined.

Lemma POST_notes_inv utcnow rnd body c n c' :
  POST_notes utcnow rnd body c = (inr n, c') →
  ∃ k, n = note_of k (inserted (isoformat utcnow) body).
Proof.
  intros Hrun. pose proof (POST_notes_effect utcnow rnd body c) as Heff.
  rewrite Hrun in Heff. simpl in Heff.
  inversion Heff; subst; [done|by eexists].
Qed.

(** X11. The [created_at] texts of two created notes compare, byte by
    byte, the way the clock readings they were taken from compare: the
    timestamps the handlers store sort chronologically as plain text. *)
Theorem created_at_compares_as_the_clock d1 d2 rnd1 rnd2 body1 body2 c1 c2
    n1 n2 c1' c2' :
  valid_datetime d1 → valid_datetime d2 →
  POST_notes d1 rnd1 body1 c1 = (inr n1, c1') →
  POST_notes d2 rnd2 body2 c2 = (inr n2, c2') →
  String.compare (created_at n1) (created_at n2) = datetime_compare d1 d2.
Proof.
  intros H1 H2 [k1 ->]%POST_notes_inv [k2 ->]%POST_notes_inv.
  cbn [created_at note_of inserted r_created_at].
  by apply isoformat_compare.
Qed.

Lemma created_at_compares_as_the_clock_witness :
  ∃ n1 n2 c1 c2,
    POST_notes (noon 0 0) no_random note_AB fresh = (inr n1, c1) ∧
    POST_notes (noon 0 5) no_random note_AB c1 = (inr n2, c2) ∧
    String.compare (created_at n1) (created_at n2) = Lt.
Proof.
  destruct (POST_notes (noon 0 0) no_random note_AB fresh) as [[e|n1] c1] eqn:E1.
  { exfalso. vm_compute in E1. discriminate E1. }
  destruct (POST_notes (noon 0 5) no_random note_AB c1) as [[e|n2] c2] eqn:E2.
  { exfalso. vm_compute in E1. injection E1 as <- <-.
    vm_compute in E2. discriminate E2. }
  exists n1, n2, c1, c2. split; [done|]. split; [done|].
  assert (valid_datetime (noon 0 0)) as H1 by (unfold valid_datetime; simpl; lia).
  assert (valid_datetime (noon 0 5)) as H2 by (unfold valid_datetime; simpl; lia).
  by rewrite (created_at_compares_as_the_clock _ _ _ _ _ _ _ _ _ _ _ _
                H1 H2 E1 E2).
Defined.
End more_handlers.

(** * The connection file *)

Section python_str.
Implicit Types (s t : string) (c : ascii).

Lemma append_nil_l s : "" +:+ s = s.
Proof. done. Qed.

Lemma append_assoc s t u : (s +:+ t) +:+ u = s +:+ (t +:+ u).
Proof. induction s as [|c s IH]; [done|]. by rewrite !append_cons, IH. Qed.

Lemma append_eq_nil s t : s +:+ t = "" → s = "" ∧ t = "".
Proof. destruct s; [done|]. by rewrite append_cons. Qed.

Lemma lstrip_cons c s :
  lstrip (String c s) = if isspace c then lstrip s else String c s.
Proof. done. Qed.

Lemma rstrip_cons c s :
  rstrip (String c s) =
    match rstrip s with
    | EmptyString => if isspace c then "" else String c ""
    | t => String c t
    end.
Proof. done. Qed.

Lemma lstrip_blank_app s t : blank s → lstrip (s +:+ t) = lstrip t.
Proof.
  unfold blank. induction s as [|c s IH]; [done|].
  rewrite append_cons, !lstrip_cons. by destruct (isspace c).
Qed.

Lemma blank_rstrip s : blank s → rstrip s = "".
Proof.
  unfold blank. induction s as [|c s IH]; [done|].
  rewrite lstrip_cons, rstrip_cons. destruct (isspace c); [|done].
  intros Hs. by rewrite IH.
Qed.

Lemma rstrip_app_blank s t : blank t → rstrip (s +:+ t) = rstrip s.
Proof.
  intros Ht. induction s as [|c s IH].
  - by apply blank_rstrip.
  - by rewrite append_cons, !rstrip_cons, IH.
Qed.

Lemma rstrip_app s t : rstrip t ≠ "" → rstrip (s +:+ t) = s +:+ rstrip t.
Proof.
  intros Ht. induction s as [|c s IH]; [done|].
  rewrite !append_cons, rstrip_cons, IH.
  destruct (s +:+ rstrip t) eqn:E; [|done].
  by apply append_eq_nil in E as [_ ?].
Qed.

Lemma rstrip_idemp s : rstrip (rstrip s) = rstrip s.
Proof.
  induction s as [|c s IH]; [done|]. rewrite rstrip_cons.
  destruct (rstrip s) as [|d t] eqn:E.
  - destruct (isspace c) eqn:Hc; [done|]. by rewrite rstrip_cons, Hc.
  - by rewrite rstrip_cons, IH.
Qed.

Lemma rstrip_fixed_tail c s : rstrip (String c s) = String c s → rstrip s = s.
Proof.
  rewrite rstrip_cons. destruct (rstrip s) as [|d t] eqn:E.
  - destruct (isspace c); [done|]. by intros [= <-].
  - by intros [= <-].
Qed.

Lemma rstrip_skip n s : rstrip s = s → rstrip (skip n s) = skip n s.
Proof.
  revert s. induction n as [|n IH]; intros s Hs; [by destruct s|].
  destruct s as [|c s]; [done|]. simpl. by apply IH, (rstrip_fixed_tail c).
Qed.

Lemma lstrip_length s : (String.length (lstrip s) ≤ String.length s)%nat.
Proof.
  induction s as [|c s IH]; [done|]. rewrite lstrip_cons.
  destruct (isspace c); simpl; lia.
Qed.

(** A text that [lstrip] leaves alone is empty or starts with a character
    that is not whitespace. *)
Lemma lstrip_fixed s :
  lstrip s = s → s = "" ∨ ∃ c s', s = String c s' ∧ isspace c = false.
Proof.
  destruct s as [|c s]; [by left|]. rewrite lstrip_cons.
  destruct (isspace c) eqn:Hc; [|by right; eauto].
  intros Hs. pose proof (lstrip_length s) as Hlen. rewrite Hs in Hlen.
  simpl in Hlen. lia.
Qed.

Lemma lstrip_idemp s : lstrip (lstrip s) = lstrip s.
Proof.
  induction s as [|c s IH]; [done|]. rewrite lstrip_cons.
  destruct (isspace c) eqn:Hc; [done|]. by rewrite lstrip_cons, Hc.
Qed.

Lemma rstrip_head c s :
  isspace c = false → ∃ t, rstrip (String c s) = String c t.
Proof.
  intros Hc. rewrite rstrip_cons, Hc. destruct (rstrip s); eauto.
Qed.

Lemma lstrip_strip s : lstrip (strip s) = strip s.
Proof.
  unfold strip. destruct (lstrip_fixed (lstrip s) (lstrip_idemp s))
    as [->|(c & s' & -> & Hc)]; [done|].
  destruct (rstrip_head c s' Hc) as [t ->]. by rewrite lstrip_cons, Hc.
Qed.

Lemma rstrip_strip s : rstrip (strip s) = strip s.
Proof. apply rstrip_idemp. Qed.

Lemma strip_idemp s : strip (strip s) = strip s.
Proof. unfold strip at 1. by rewrite lstrip_strip, rstrip_strip. Qed.

Lemma strip_fixed s : strip s = s → lstrip s = s ∧ rstrip s = s.
Proof. intros Hs. split; rewrite <- Hs; [apply lstrip_strip|apply rstrip_strip]. Qed.

Lemma lstrip_rstrip s : lstrip (rstrip s) = rstrip (lstrip s).
Proof.
  induction s as [|c s IH]; [done|]. rewrite lstrip_cons.
  destruct (isspace c) eqn:Hc.
  - rewrite rstrip_cons, Hc, <- IH. destruct (rstrip s) as [|d t]; [done|].
    by rewrite lstrip_cons, Hc.
  - destruct (rstrip_head c s Hc) as [t ->]. by rewrite lstrip_cons, Hc.
Qed.

Lemma strip_rstrip s : strip (rstrip s) = strip s.
Proof. unfold strip. by rewrite lstrip_rstrip, rstrip_idemp. Qed.

Lemma rstrip_nil_blank s : rstrip s = "" → blank s.
Proof.
  unfold blank. induction s as [|c s IH]; [done|].
  rewrite rstrip_cons, lstrip_cons. destruct (rstrip s); [|done].
  destruct (isspace c); [auto|done].
Qed.

Lemma lower_app s t : lower (s +:+ t) = lower s +:+ lower t.
Proof. induction s as [|c s IH]; [done|]. by rewrite !append_cons; simpl; rewrite IH. Qed.

Lemma startswith_app s t : startswith (s +:+ t) s = true.
Proof.
  induction s as [|c s IH]; [done|]. rewrite append_cons. simpl.
  by rewrite Ascii.eqb_refl, IH.
Qed.

Lemma lower_char_colon c : lower_char c = ":"%char → c = ":"%char.
Proof.
  destruct c as [[] [] [] [] [] [] [] []]; vm_compute; intros H;
    first [reflexivity | discriminate H].
Qed.

(** A character that [lower] turns into a small ASCII letter is neither
    whitespace nor [#]. *)
Lemma lower_char_letter c :
  (97 <=? code (lower_char c)) && (code (lower_char c) <=? 122) = true →
  isspace c = false ∧ Ascii.eqb "#" c = false.
Proof.
  destruct c as [[] [] [] [] [] [] [] []]; vm_compute; intros H;
    first [discriminate H | by split].
Qed.

Lemma partition_app sep s t :
  partition sep s = None → partition sep (s +:+ String sep t) = Some (s, t).
Proof.
  induction s as [|c s IH].
  - intros _. change ("" +:+ String sep t) with (String sep t).
    cbn [partition]. by rewrite Ascii.eqb_refl.
  - rewrite append_cons. cbn [partition]. destruct (Ascii.eqb c sep); [done|].
    destruct (partition sep s) as [[a b]|]; [done|]. intros _.
    by rewrite IH.
Qed.

Lemma partition_lower_None s :
  partition ":" (lower s) = None → partition ":" s = None.
Proof.
  induction s as [|c s IH]; [done|]. simpl.
  destruct (Ascii.eqb_spec c ":") as [->|Hne]; [done|].
  destruct (Ascii.eqb_spec (lower_char c) ":") as [Heq|_]; [done|].
  destruct (partition ":" (lower s)) as [[a b]|]; [done|]. intros _.
  by rewrite IH.
Qed.

(** If the lower-cased text starts with a prefix that holds a colon, the
    text holds a colon. *)
Lemma startswith_lower_colon s p :
  startswith (lower s) p = true → is_Some (partition ":" p) →
  is_Some (partition ":" s).
Proof.
  revert s. induction p as [|x p IH]; intros s; [by intros _ [? [=]]|].
  destruct s as [|c s]; [done|]. simpl.
  intros [Hx Hp]%andb_true_iff. apply Ascii.eqb_eq in Hx. subst x.
  destruct (Ascii.eqb_spec c ":") as [->|Hne]; [by eauto|].
  destruct (Ascii.eqb_spec (lower_char c) ":") as [Heq|_].
  { by apply lower_char_colon in Heq. }
  intros Hsome.
  assert (is_Some (partition ":" p)) as Hsp.
  { destruct (partition ":" p) as [[a b]|]; [by eauto|]. by destruct Hsome. }
  destruct (IH s Hp Hsp) as [[a b] ->]. by eauto.
Qed.

Lemma no_linebreak_app s t :
  no_linebreak (s +:+ t) = no_linebreak s && no_linebreak t.
Proof.
  induction s as [|c s IH]; [done|]. rewrite append_cons. simpl.
  by rewrite IH, andb_assoc.
Qed.

Lemma splitlines_line s rest :
  no_linebreak s = true → splitlines (s +:+ LF +:+ rest) = s :: splitlines rest.
Proof.
  induction s as [|c s IH].
  - intros _. rewrite append_nil_l. unfold LF. rewrite append_cons, append_nil_l.
    by destruct rest.
  - rewrite append_cons. cbn [no_linebreak splitlines].
    intros [Hc Hs]%andb_true_iff. apply negb_true_iff in Hc.
    by rewrite Hc, (IH Hs).
Qed.

Lemma splitlines_last s :
  no_linebreak s = true → s ≠ "" → splitlines s = [s].
Proof.
  induction s as [|c s IH]; [done|]. cbn [no_linebreak splitlines].
  intros [Hc Hs]%andb_true_iff _. apply negb_true_iff in Hc. rewrite Hc.
  destruct s as [|d s]; [done|]. by rewrite (IH Hs).
Qed.
End python_str.

Section extract.
Implicit Types (s t key v raw rest : string) (c : ascii).

Lemma scan_cons raw (lines : list string) :
  scan (raw :: lines) =
    let line := strip raw in
    if String.eqb line "" || startswith line "#" then scan lines
    else
      let connection_string :=
        if startswith (lower line) "connection string:" then
          match item1 (split1 ":" line) with
          | Returns v =>
              let value := strip v in
              if startswith value "sqlite:////"
              then Returns (Some (replace_first "sqlite:////" "/" value))
              else scan lines
          | Raises_IndexError => Raises_IndexError
          end
        else scan lines in
      if startswith (lower line) "file path:" then
        match item1 (split1 ":" line) with
        | Returns v =>
            let value := strip v in
            if negb (String.eqb value "") then Returns (Some value)
            else connection_string
        | Raises_IndexError => Raises_IndexError
        end
      else connection_string.
Proof. done. Qed.

Lemma item1_split1 s :
  is_Some (partition ":" s) → ∃ v, item1 (split1 ":" s) = Returns v.
Proof. intros [[a b] Hp]. unfold split1. rewrite Hp. by eexists. Qed.

Lemma scan_never_raises (lines : list string) : scan lines ≠ Raises_IndexError.
Proof.
  induction lines as [|raw lines IH]; [done|]. rewrite scan_cons. cbn zeta.
  set (line := strip raw). destruct (String.eqb line "" || startswith line "#");
    [done|].
  assert ((if startswith (lower line) "connection string:" then
             match item1 (split1 ":" line) with
             | Returns v =>
                 if startswith (strip v) "sqlite:////"
                 then Returns (Some (replace_first "sqlite:////" "/" (strip v)))
                 else scan lines
             | Raises_IndexError => Raises_IndexError
             end
           else scan lines) ≠ Raises_IndexError) as Hconn.
  { destruct (startswith (lower line) "connection string:") eqn:Hc; [|done].
    destruct (item1_split1 line) as [v ->].
    { apply (startswith_lower_colon _ _ Hc). by eexists. }
    by destruct (startswith (strip v) "sqlite:////"). }
  destruct (startswith (lower line) "file path:") eqn:Hf; [|done].
  destruct (item1_split1 line) as [v Hv].
  { apply (startswith_lower_colon _ _ Hf). by eexists. }
  rewrite Hv in *.
  destruct (negb (String.eqb (strip v) "")); [done|exact Hconn].
Qed.

(** X12. [_extract_sqlite_file_path] never raises: whenever it subscripts
    the result of [split(":", 1)] with 1, the line has a colon, because its
    lower-cased form starts with a key that ends in one. *)
Theorem extract_never_raises (db_connection_txt : string) :
  ∃ r, _extract_sqlite_file_path db_connection_txt = Returns r.
Proof.
  unfold _extract_sqlite_file_path.
  pose proof (scan_never_raises (splitlines db_connection_txt)) as H.
  destruct (scan _); [by eexists|done].
Qed.

Lemma replace_first_eq old new s :
  replace_first old new s =
    if startswith s old then new +:+ skip (String.length old) s
    else match s with
         | String c s' => String c (replace_first old new s')
         | EmptyString => EmptyString
         end.
Proof. by destruct s. Qed.

Lemma slash_app s : "/" +:+ s = String "/" s.
Proof. done. Qed.

Lemma strip_slash s : rstrip s = s → strip (String "/" s) = String "/" s.
Proof.
  intros Hs. unfold strip. rewrite lstrip_cons.
  change (isspace "/") with false. cbn iota.
  rewrite rstrip_cons, Hs. by destruct s.
Qed.

Lemma scan_result (lines : list string) p :
  scan lines = Returns (Some p) → p ≠ "" ∧ strip p = p.
Proof.
  induction lines as [|raw lines IH]; [done|]. rewrite scan_cons. cbn zeta.
  set (line := strip raw).
  destruct (String.eqb line "" || startswith line "#"); [done|].
  assert ((if startswith (lower line) "connection string:" then
             match item1 (split1 ":" line) with
             | Returns v =>
                 if startswith (strip v) "sqlite:////"
                 then Returns (Some (replace_first "sqlite:////" "/" (strip v)))
                 else scan lines
             | Raises_IndexError => Raises_IndexError
             end
           else scan lines) = Returns (Some p) → p ≠ "" ∧ strip p = p) as Hconn.
  { destruct (startswith (lower line) "connection string:"); [|done].
    destruct (item1 (split1 ":" line)) as [v|]; [|done].
    destruct (startswith (strip v) "sqlite:////") eqn:Hv; [|done].
    rewrite replace_first_eq, Hv. clear IH. intros Heq.
    assert (p = "/" +:+ skip (String.length "sqlite:////") (strip v))
      as -> by congruence.
    rewrite slash_app. split; [done|]. apply strip_slash, rstrip_skip, rstrip_strip. }
  destruct (startswith (lower line) "file path:"); [|done].
  destruct (item1 (split1 ":" line)) as [v|]; [|done].
  destruct (String.eqb_spec (strip v) "") as [Hv|Hv]; [done|].
  cbn [negb]. intros [= <-]. split; [done|]. apply strip_idemp.
Qed.

(** X13. A path that [_extract_sqlite_file_path] returns is never empty and
    has no whitespace at either end. *)
Theorem extracted_path_is_stripped (db_connection_txt p : string) :
  _extract_sqlite_file_path db_connection_txt = Returns (Some p) →
  p ≠ "" ∧ strip p = p.
Proof. apply scan_result. Qed.

Lemma extracted_path_is_stripped_witness :
  "/data/notes.db" ≠ "" ∧ strip "/data/notes.db" = "/data/notes.db".
Proof.
  apply (extracted_path_is_stripped sample_file). by vm_compute.
Defined.

(** A key whose lower-cased form starts with a small letter starts with a
    character that is neither whitespace nor [#]. *)
Lemma key_head key x K :
  lower key = String x K → (97 <=? code x) && (code x <=? 122) = true →
  ∃ c k, key = String c k ∧ isspace c = false ∧ Ascii.eqb "#" c = false.
Proof.
  destruct key as [|c k]; [done|]. simpl. intros [= <- _] Hx.
  destruct (lower_char_letter c Hx). by eauto.
Qed.

Lemma strip_keyed ws key v c k :
  blank ws → key = String c k → isspace c = false →
  ∃ v', strip (ws +:+ key +:+ ":" +:+ v) = key +:+ ":" +:+ v' ∧
        strip v' = strip v.
Proof.
  intros Hws -> Hc. unfold strip at 1. rewrite lstrip_blank_app by done.
  rewrite append_cons, lstrip_cons, Hc, <- append_cons.
  rewrite <- append_assoc.
  destruct (rstrip v) as [|d t] eqn:Hv.
  - exists "". rewrite rstrip_app_blank by (by apply rstrip_nil_blank).
    rewrite rstrip_app by done. split.
    + change (rstrip ":") with ":". by rewrite (append_nil_r ":").
    + unfold strip. apply rstrip_nil_blank in Hv. unfold blank in Hv.
      by rewrite Hv.
  - exists (rstrip v). rewrite rstrip_app by (by rewrite Hv).
    rewrite append_assoc. split; [done|]. apply strip_rstrip.
Qed.

(** What the loop sees of a line [key:value] once it has stripped it. *)
Lemma keyed_line key v c k :
  key = String c k → isspace c = false → Ascii.eqb "#" c = false →
  partition ":" key = None →
  String.eqb (key +:+ ":" +:+ v) "" || startswith (key +:+ ":" +:+ v) "#"
    = false ∧
  item1 (split1 ":" (key +:+ ":" +:+ v)) = Returns v.
Proof.
  intros -> Hc Hh Hp. split.
  - rewrite append_cons. cbn [String.eqb startswith orb]. by rewrite Hh.
  - unfold split1. change (":" +:+ v) with (String ":" v).
    by rewrite partition_app.
Qed.

Lemma extract_line raw rest :
  no_linebreak raw = true →
  _extract_sqlite_file_path (raw +:+ LF +:+ rest) = scan (raw :: splitlines rest).
Proof. intros H. unfold _extract_sqlite_file_path. by rewrite splitlines_line. Qed.

Lemma extract_last_line raw :
  no_linebreak raw = true →
  _extract_sqlite_file_path raw = scan (raw :: []).
Proof.
  intros H. unfold _extract_sqlite_file_path. destruct raw as [|c raw]; [done|].
  by rewrite splitlines_last.
Qed.

Lemma scan_file_path ws key v (lines : list string) :
  blank ws → lower key = "file path" → strip v ≠ "" →
  scan ((ws +:+ key +:+ ":" +:+ v) :: lines) = Returns (Some (strip v)).
Proof.
  intros Hws Hkey Hv.
  destruct (key_head key _ _ Hkey eq_refl) as (c & k & Hk & Hc & Hh).
  destruct (strip_keyed ws key v c k Hws Hk Hc) as (v' & Hstrip & Hv').
  assert (partition ":" key = None) as Hp
    by (apply partition_lower_None; by rewrite Hkey).
  destruct (keyed_line key v' c k Hk Hc Hh Hp) as [Hskip Hitem].
  rewrite scan_cons. cbn zeta. rewrite Hstrip, Hskip.
  assert (startswith (lower (key +:+ ":" +:+ v')) "file path:" = true) as ->.
  { by rewrite lower_app, Hkey. }
  rewrite Hitem, Hv'. by destruct (String.eqb_spec (strip v) "").
Qed.

(** X14. When the first line of the file is [File path: value], with the
    key in any mix of capitals, whitespace before the key and around the
    value, and a value that is not blank, [_extract_sqlite_file_path]
    returns the value stripped, whatever the lines after it are; so it does
    when the line is the whole file, without a line break at its end. *)
Theorem extract_file_path_line ws key v rest :
  blank ws → lower key = "file path" → strip v ≠ "" →
  no_linebreak (ws +:+ key +:+ ":" +:+ v) = true →
  _extract_sqlite_file_path ((ws +:+ key +:+ ":" +:+ v) +:+ LF +:+ rest)
    = Returns (Some (strip v)) ∧
  _extract_sqlite_file_path (ws +:+ key +:+ ":" +:+ v)
    = Returns (Some (strip v)).
Proof.
  intros Hws Hkey Hv Hnl. rewrite extract_line, extract_last_line by done.
  by rewrite !scan_file_path.
Qed.

Lemma extract_file_path_line_witness :
  _extract_sqlite_file_path
    (("  " +:+ "FILE Path" +:+ ":" +:+ "  /data/my notes.db ") +:+ LF +:+
     "Connection string: sqlite:////other.db")
  = Returns (Some "/data/my notes.db").
Proof.
  refine (proj1 (extract_file_path_line "  " "FILE Path" "  /data/my notes.db "
                   "Connection string: sqlite:////other.db" _ _ _ _)).
  - by vm_compute.
  - by vm_compute.
  - by vm_compute.
  - by vm_compute.
Defined.

Lemma scan_connection_string ws key v (lines : list string) :
  blank ws → lower key = "connection string" →
  scan ((ws +:+ key +:+ ":" +:+ v) :: lines) =
    if startswith (strip v) "sqlite:////"
    then Returns (Some ("/" +:+ skip 11 (strip v)))
    else scan lines.
Proof.
  intros Hws Hkey.
  destruct (key_head key _ _ Hkey eq_refl) as (c & k & Hk & Hc & Hh).
  destruct (strip_keyed ws key v c k Hws Hk Hc) as (v' & Hstrip & Hv').
  assert (partition ":" key = None) as Hp
    by (apply partition_lower_None; by rewrite Hkey).
  destruct (keyed_line key v' c k Hk Hc Hh Hp) as [Hskip Hitem].
  rewrite scan_cons. cbn zeta. rewrite Hstrip, Hskip.
  assert (startswith (lower (key +:+ ":" +:+ v')) "file path:" = false) as ->.
  { by rewrite lower_app, Hkey. }
  assert (startswith (lower (key +:+ ":" +:+ v')) "connection string:" = true)
    as ->.
  { by rewrite lower_app, Hkey. }
  rewrite Hitem, Hv'. destruct (startswith (strip v) "sqlite:////") eqn:E; [|done].
  by rewrite replace_first_eq, E.
Qed.

(** X15. When the first line of the file is
    [Connection string: sqlite:////rest], with the key in any mix of
    capitals and whitespace before the key and around the value,
    [_extract_sqlite_file_path] returns [/rest]: the value stripped, with
    its first eleven characters replaced by one slash. *)
Theorem extract_connection_string_line ws key v rest :
  blank ws → lower key = "connection string" →
  startswith (strip v) "sqlite:////" = true →
  no_linebreak (ws +:+ key +:+ ":" +:+ v) = true →
  _extract_sqlite_file_path ((ws +:+ key +:+ ":" +:+ v) +:+ LF +:+ rest)
    = Returns (Some ("/" +:+ skip 11 (strip v))) ∧
  _extract_sqlite_file_path (ws +:+ key +:+ ":" +:+ v)
    = Returns (Some ("/" +:+ skip 11 (strip v))).
Proof.
  intros Hws Hkey Hv Hnl. rewrite extract_line, extract_last_line by done.
  by rewrite !scan_connection_string, Hv.
Qed.

Lemma extract_connection_string_line_witness :
  _extract_sqlite_file_path
    ("" +:+ "Connection String" +:+ ":" +:+ " sqlite:////data/notes.db  ")
  = Returns (Some "/data/notes.db").
Proof.
  refine (proj2 (extract_connection_string_line "" "Connection String"
                   " sqlite:////data/notes.db  " "" _ _ _ _)).
  - by vm_compute.
  - by vm_compute.
  - by vm_compute.
  - by vm_compute.
Defined.

(** X16. A first line that is blank, that is a comment, or that starts with
    neither key is passed over: the result is that of the rest of the
    file. *)
Theorem extract_skips_other_lines raw rest :
  no_linebreak raw = true →
  strip raw = "" ∨ startswith (strip raw) "#" = true ∨
    (startswith (lower (strip raw)) "file path:" = false ∧
     startswith (lower (strip raw)) "connection string:" = false) →
  _extract_sqlite_file_path (raw +:+ LF +:+ rest)
    = _extract_sqlite_file_path rest.
Proof.
  intros Hnl Hskip. rewrite extract_line by done.
  unfold _extract_sqlite_file_path at 1. rewrite scan_cons. cbn zeta.
  destruct Hskip as [->|[->|[-> ->]]].
  - done.
  - by rewrite orb_true_r.
  - by destruct (_ || _).
Qed.

Lemma extract_skips_other_lines_witness :
  _extract_sqlite_file_path ("# File path: /old.db" +:+ LF +:+ "File path: /new.db")
  = _extract_sqlite_file_path "File path: /new.db".
Proof.
  apply extract_skips_other_lines.
  - by vm_compute.
  - right; left. by vm_compute.
Defined.

(** X17. A first line with a key but no usable value is passed over as
    well: [File path:] followed by nothing but whitespace, and
    [Connection string:] with a value that does not start with
    [sqlite:////] once stripped. *)
Theorem extract_skips_keys_without_value ws key v rest :
  blank ws → no_linebreak (ws +:+ key +:+ ":" +:+ v) = true →
  (lower key = "file path" ∧ blank v) ∨
  (lower key = "connection string" ∧
   startswith (strip v) "sqlite:////" = false) →
  _extract_sqlite_file_path ((ws +:+ key +:+ ":" +:+ v) +:+ LF +:+ rest)
    = _extract_sqlite_file_path rest.
Proof.
  intros Hws Hnl Hcase. rewrite extract_line by done.
  unfold _extract_sqlite_file_path at 1.
  destruct Hcase as [[Hkey Hv]|[Hkey Hv]].
  - destruct (key_head key _ _ Hkey eq_refl) as (c & k & Hk & Hc & Hh).
    destruct (strip_keyed ws key v c k Hws Hk Hc) as (v' & Hstrip & Hv').
    assert (partition ":" key = None) as Hp
      by (apply partition_lower_None; by rewrite Hkey).
    destruct (keyed_line key v' c k Hk Hc Hh Hp) as [Hskip Hitem].
    rewrite scan_cons. cbn zeta. rewrite Hstrip, Hskip.
    assert (startswith (lower (key +:+ ":" +:+ v')) "file path:" = true) as ->.
    { by rewrite lower_app, Hkey. }
    assert (startswith (lower (key +:+ ":" +:+ v')) "connection string:" = false)
      as ->.
    { by rewrite lower_app, Hkey. }
    rewrite Hitem, Hv'. unfold strip. unfold blank in Hv. by rewrite Hv.
  - by rewrite scan_connection_string, Hv.
Qed.

Lemma extract_skips_keys_without_value_witness :
  _extract_sqlite_file_path
    (("" +:+ "Connection string" +:+ ":" +:+ " sqlite:///relative.db") +:+ LF +:+
     "File path: /data/notes.db")
  = _extract_sqlite_file_path "File path: /data/notes.db".
Proof.
  apply extract_skips_keys_without_value.
  - by vm_compute.
  - by vm_compute.
  - right. split; by vm_compute.
Defined.
End extract.

(** * Ids on the AUTOINCREMENT table *)

Section sequenced.
Implicit Types (db : database) (c : connection) (k : Z) (rq : request).

(** With the rowid allocation of a plain rowid table, [create_note_with]
    is [create_note]. *)
Lemma create_note_with_new_rowid utcnow rnd payload :
  create_note_with (new_rowid rnd) utcnow payload = create_note utcnow rnd payload.
Proof. done. Qed.

(** What a create does to the table, whatever chooses the rowid: it fails
    and leaves the table as it was, or it returns the note it has inserted
    under the chosen rowid. *)
Lemma POST_notes_with_run choose utcnow body c :
  (∃ e, (POST_notes_with choose utcnow body c).1 = inl e ∧
        notes (POST_notes_with choose utcnow body c).2 = notes c) ∨
  (∃ k, choose (notes c) = Some k ∧
        (POST_notes_with choose utcnow body c).1 =
          inr (note_of k (inserted (isoformat utcnow) body)) ∧
        notes (POST_notes_with choose utcnow body c).2 =
          <[k := inserted (isoformat utcnow) body]> (notes c)).
Proof.
  unfold POST_notes_with. destruct (NoteCreate_valid body) eqn:Hv;
    [|left; by eexists].
  apply andb_true_iff in Hv as [Ht Hc].
  unfold create_note_with, insert_with, except_sqlite3_Error, with_connection,
    select_by_id, bind_int, execute, _row_to_note, raise.
  unfold mbind, M_bind, mret, M_ret. simpl.
  destruct (choose (notes c)) as [k|] eqn:Hk; simpl; [|left; by eexists].
  destruct (int64 k) eqn:Hr; simpl; [|left; by eexists].
  rewrite lookup_insert_eq. simpl. rewrite Ht, Hc. simpl.
  right. by exists k.
Qed.

Lemma autoincrement_rowid_above seq (t : gmap Z Row) k :
  autoincrement_rowid seq t = Some k → seq < k.
Proof.
  unfold autoincrement_rowid. case_match; [|done]. intros [= <-]. lia.
Qed.

Lemma serve_sequenced_other rq db :
  (∀ utcnow rnd body, rq ≠ CreateNote utcnow rnd body) →
  serve_sequenced rq db =
    ((serve rq (connection_of db)).1,
     {| connection_of := (serve rq (connection_of db)).2;
        sqlite_sequence := sqlite_sequence db |}).
Proof.
  intros Hrq. destruct rq as [|utcnow rnd b|k|utcnow k b|k]; simpl;
    try by case_match.
  by destruct (Hrq utcnow rnd b).
Qed.

(** One request never lowers [sqlite_sequence], and the id of a created note
    is above the value it found there and is the value it leaves. *)
Lemma serve_sequenced_sequence rq db :
  sqlite_sequence db ≤ sqlite_sequence (serve_sequenced rq db).2 ∧
  ∀ n, (serve_sequenced rq db).1 = Created (inr n) →
       sqlite_sequence db < id n ∧
       sqlite_sequence (serve_sequenced rq db).2 = id n.
Proof.
  destruct rq as [|utcnow rnd body|k|utcnow k body|k].
  2:{ simpl.
      destruct (POST_notes_with_run (autoincrement_rowid (sqlite_sequence db))
                  utcnow body (connection_of db))
        as [(e & Hr & _)|(k & Hk & Hr & _)];
        destruct (POST_notes_with _ _ _ _) as [r c']; simpl in *; subst r.
      - split; [done|]. by intros n [=].
      - apply autoincrement_rowid_above in Hk. simpl. split; [lia|].
        intros n [= <-]. simpl. by split. }
  all: rewrite serve_sequenced_other by done; simpl; split; [done|].
  all: intros n Hn; exfalso; revert Hn.
  - by destruct (list_notes _).
  - by destruct (get_note _ _).
  - by destruct (PUT_notes _ _ _ _).
  - by destruct (delete_note _ _).
Qed.

Lemma serve_all_sequenced_cons rq rqs db :
  serve_all_sequenced (rq :: rqs) db =
    ((serve_sequenced rq db).1 ::
       (serve_all_sequenced rqs (serve_sequenced rq db).2).1,
     (serve_all_sequenced rqs (serve_sequenced rq db).2).2).
Proof. simpl. by destruct (serve_sequenced rq db), (serve_all_sequenced rqs _). Qed.

(** Every id created by a sequence of requests is above the value of
    [sqlite_sequence] at its start. *)
Lemma created_above_sequence rqs db (i : nat) n :
  (serve_all_sequenced rqs db).1 !! i = Some (Created (inr n)) →
  sqlite_sequence db < id n.
Proof.
  revert db i. induction rqs as [|rq rqs IH]; intros db i; [done|].
  rewrite serve_all_sequenced_cons. simpl.
  destruct (serve_sequenced_sequence rq db) as [Hle Hnew].
  destruct i as [|i]; simpl.
  - intros [= Hrp]. by apply Hnew.
  - intros Hi. apply IH in Hi. lia.
Qed.

(** C4. On the AUTOINCREMENT table, in every sequence of requests the id
    that a create is given is larger than the id given to every earlier
    create, whatever was deleted in between: no id is assigned a second
    time. *)
Theorem created_ids_are_never_reassigned rqs db (i j : nat) n1 n2 :
  (i < j)%nat →
  (serve_all_sequenced rqs db).1 !! i = Some (Created (inr n1)) →
  (serve_all_sequenced rqs db).1 !! j = Some (Created (inr n2)) →
  id n1 < id n2.
Proof.
  revert db i j. induction rqs as [|rq rqs IH]; intros db i j Hij; [done|].
  rewrite serve_all_sequenced_cons. simpl.
  destruct j as [|j]; [lia|]. destruct i as [|i]; simpl.
  - intros [= H1] H2. apply created_above_sequence in H2.
    destruct (serve_sequenced_sequence rq db) as [_ Hnew].
    destruct (Hnew n1 H1) as [_ Heq]. lia.
  - apply IH. lia.
Qed.

Lemma created_ids_are_never_reassigned_witness :
  ∃ n1 n2,
    (serve_all_sequenced [CreateNote (noon 0 0) no_random note_AB;
                          DeleteNote 1;
                          CreateNote (noon 9 0) no_random note_AB]
       fresh_database).1 !! 2%nat = Some (Created (inr n2)) ∧
    id n1 = 1 ∧ id n1 < id n2.
Proof.
  exists (note_of 1 (inserted (isoformat (noon 0 0)) note_AB)),
         (note_of 2 (inserted (isoformat (noon 9 0)) note_AB)).
  split; [by vm_compute|]. split; [done|].
  eapply (created_ids_are_never_reassigned
            [CreateNote (noon 0 0) no_random note_AB; DeleteNote 1;
             CreateNote (noon 9 0) no_random note_AB] fresh_database 0 2).
  - lia.
  - by vm_compute.
  - by vm_compute.
Defined.

Lemma not_assigned_other rq c k :
  (∀ utcnow rnd body, rq ≠ CreateNote utcnow rnd body) →
  ¬ assigned k (serve rq c).1.
Proof.
  intros Hrq (n & Hn & _). revert Hn.
  destruct rq as [|utcnow rnd b|j|utcnow j b|j]; simpl.
  - by destruct (list_notes _).
  - by destruct (Hrq utcnow rnd b).
  - by destruct (get_note _ _).
  - by destruct (PUT_notes _ _ _ _).
  - by destruct (delete_note _ _).
Qed.

(** An id that is not stored and is not beyond [sqlite_sequence] stays so,
    and appears in no list result. *)
Lemma serve_sequenced_absent rq db k :
  notes (connection_of db) !! k = None → k ≤ sqlite_sequence db →
  notes (connection_of (serve_sequenced rq db).2) !! k = None ∧
  k ≤ sqlite_sequence (serve_sequenced rq db).2 ∧
  ¬ lists k (serve_sequenced rq db).1.
Proof.
  intros Hk Hseq.
  destruct (serve_sequenced_sequence rq db) as [Hle _].
  assert (Hother : (∀ utcnow rnd body, rq ≠ CreateNote utcnow rnd body) →
            notes (connection_of (serve_sequenced rq db).2) !! k = None ∧
            ¬ lists k (serve_sequenced rq db).1).
  { intros Hrq. rewrite (serve_sequenced_other rq db Hrq).
    cbn [fst snd connection_of].
    apply (effect_absent _ _ _ _ k (serve_effect rq (connection_of db)) Hk).
    by apply not_assigned_other. }
  destruct rq as [|utcnow rnd body|j|utcnow j body|j].
  2:{ split; [|split; [lia|]].
      - simpl.
        destruct (POST_notes_with_run (autoincrement_rowid (sqlite_sequence db))
                    utcnow body (connection_of db))
          as [(e & _ & Hn)|(k' & Hk' & _ & Hn)];
          destruct (POST_notes_with _ _ _ _) as [r c']; simpl in *;
          rewrite Hn; [done|].
        apply autoincrement_rowid_above in Hk'.
        rewrite lookup_insert_ne; [done|lia].
      - simpl. destruct (POST_notes_with _ _ _ _) as [r c']. simpl.
        by intros (l & n & [=] & _). }
  all: destruct Hother as [H1 H2]; [done|]; split; [done|split; [lia|done]].
Qed.

Lemma absent_for_good rqs db k :
  notes (connection_of db) !! k = None → k ≤ sqlite_sequence db →
  ∀ rp, rp ∈ (serve_all_sequenced rqs db).1 → ¬ lists k rp.
Proof.
  revert db. induction rqs as [|rq rqs IH]; intros db Hk Hseq rp.
  - simpl. by intros ?%elem_of_nil.
  - rewrite serve_all_sequenced_cons. simpl.
    destruct (serve_sequenced_absent rq db k Hk Hseq) as (Hk1 & Hseq1 & Hnl).
    intros [->|Hin]%elem_of_cons; [done|]. by apply (IH _ Hk1 Hseq1).
Qed.

(** C5. On the AUTOINCREMENT table, deleting an existing note returns 204
    with an empty body and removes the row; a [get_note] on the id right
    after is answered 404; and whatever requests follow, creates among
    them, the id appears in no list result again. *)
Theorem deleted_note_never_reappears note_id db r :
  wf_table (notes (connection_of db)) → within_sequence db →
  notes (connection_of db) !! note_id = Some r →
  ∃ db',
    serve_sequenced (DeleteNote note_id) db =
      (Deleted (inr {| status_code := 204; body := "" |}), db') ∧
    notes (connection_of db') = delete note_id (notes (connection_of db)) ∧
    (∃ detail c,
       get_note note_id (connection_of db') =
         (inl (HTTPException 404 detail), c)) ∧
    ∀ rqs rp, rp ∈ (serve_all_sequenced rqs db').1 → ¬ lists note_id rp.
Proof.
  intros Hwf Hseq Hr. destruct (Hwf note_id r Hr) as [Hk _].
  eexists. split.
  { simpl. by rewrite (delete_note_found (connection_of db) note_id r). }
  simpl. split; [done|]. split.
  - eexists _, _. apply get_note_missing; [done|]. apply lookup_delete_eq.
  - intros rqs. apply absent_for_good; simpl.
    + apply lookup_delete_eq.
    + by apply (Hseq note_id r).
Qed.

Lemma deleted_note_never_reappears_witness :
  ∃ db',
    serve_sequenced (DeleteNote 1) one_note_database =
      (Deleted (inr {| status_code := 204; body := "" |}), db') ∧
    ∀ rp, rp ∈ (serve_all_sequenced
                  [CreateNote (noon 9 0) no_random note_AB; ListNotes] db').1 →
          ¬ lists 1 rp.
Proof.
  destruct (deleted_note_never_reappears 1 one_note_database
              (inserted (isoformat (noon 0 0)) note_AB))
    as (db' & Hdel & _ & _ & Hlist).
  - by_evaluation.
  - by_evaluation.
  - by vm_compute.
  - exists db'. split; [exact Hdel|]. apply Hlist.
Defined.
End sequenced.
